(** * SatFinder: the geometry engine of [js/ar.js] (class [SatelliteCalculator])

    The calculator of the repository is a handful of closed-form
    spherical-trigonometry formulas over JavaScript numbers.  This
    development embeds those methods one by one and proves the properties
    that the specification states about them.

    ** The number model

    A JavaScript number is modelled as an extended real: a finite value
    carries an exact real ([Fin r]); the three exceptional IEEE-754 values
    [Infinity], [-Infinity] and [NaN] are separate constructors and follow the
    IEEE rules of ECMAScript (division by zero, [Infinity - Infinity],
    [0 * Infinity], comparisons with [NaN], ...).  Arithmetic on finite values
    is exact real arithmetic: binary64 rounding error and the sign of zero are
    outside the model (a zero is [+0]).  The [Math] functions are the
    mathematical functions, extended to the exceptional values as ECMAScript
    prescribes; [Math.tan] at a pole of the tangent is the signed infinity of
    the quotient [sin / cos]. *)

From Stdlib Require Import Reals Lra Lia ZArith Bool Psatz.
From Stdlib Require Import Zfloor Machin.
From Stdlib Require Import List String.

Open Scope R_scope.

(** ** JavaScript numbers *)

Module JS.

Inductive number : Type :=
| Fin (r : R)
| PInf
| NInf
| NaN.

Definition is_finite (a : number) : Prop :=
  match a with Fin _ => True | _ => False end.

Definition is_NaN (a : number) : Prop :=
  match a with NaN => True | _ => False end.

Definition R_ltb (x y : R) : bool := if Rlt_dec x y then true else false.
Definition R_leb (x y : R) : bool := if Rle_dec x y then true else false.

(** [a < b]; every comparison with [NaN] is false. *)
Definition lt (a b : number) : bool :=
  match a, b with
  | NaN, _ | _, NaN => false
  | Fin x, Fin y => R_ltb x y
  | PInf, _ => false
  | _, NInf => false
  | NInf, _ => true
  | Fin _, PInf => true
  end.

(** [a >= b] *)
Definition ge (a b : number) : bool :=
  match a, b with
  | NaN, _ | _, NaN => false
  | Fin x, Fin y => R_leb y x
  | PInf, _ => true
  | _, NInf => true
  | NInf, _ => false
  | Fin _, PInf => false
  end.

(** [a > b] *)
Definition gt (a b : number) : bool := lt b a.

Definition neg (a : number) : number :=
  match a with
  | Fin x => Fin (- x)
  | PInf => NInf
  | NInf => PInf
  | NaN => NaN
  end.

Definition add (a b : number) : number :=
  match a, b with
  | NaN, _ | _, NaN => NaN
  | Fin x, Fin y => Fin (x + y)
  | PInf, NInf | NInf, PInf => NaN
  | PInf, _ | _, PInf => PInf
  | NInf, _ | _, NInf => NInf
  end.

Definition sub (a b : number) : number := add a (neg b).

(** The infinity [inf] with its sign multiplied by the sign of [x];
    [NaN] when [x] is zero. *)
Definition signed (x : R) (inf : number) : number :=
  if Rlt_dec 0 x then inf
  else if Rlt_dec x 0 then neg inf
  else NaN.

Definition mul (a b : number) : number :=
  match a, b with
  | NaN, _ | _, NaN => NaN
  | Fin x, Fin y => Fin (x * y)
  | Fin x, inf | inf, Fin x => signed x inf
  | PInf, PInf | NInf, NInf => PInf
  | PInf, NInf | NInf, PInf => NInf
  end.

Definition div (a b : number) : number :=
  match a, b with
  | NaN, _ | _, NaN => NaN
  | Fin x, Fin y =>
      if Req_dec_T y 0 then signed x PInf else Fin (x / y)
  | Fin _, _ => Fin 0
  | inf, Fin y => if Rlt_dec y 0 then neg inf else inf
  | _, _ => NaN
  end.

(** Truncation toward zero, as the remainder operator uses it. *)
Definition Ztrunc (q : R) : Z := if Rlt_dec q 0 then Zceil q else Zfloor q.

(** [a % b]: the remainder has the sign of the dividend. *)
Definition rem (a b : number) : number :=
  match a, b with
  | Fin x, Fin y =>
      if Req_dec_T y 0 then NaN else Fin (x - y * IZR (Ztrunc (x / y)))
  | Fin x, (PInf | NInf) => Fin x
  | _, _ => NaN
  end.

Definition Math_PI : number := Fin PI.

Definition Math_sqrt (a : number) : number :=
  match a with
  | Fin x => if Rlt_dec x 0 then NaN else Fin (sqrt x)
  | PInf => PInf
  | _ => NaN
  end.

Definition Math_sin (a : number) : number :=
  match a with Fin x => Fin (sin x) | _ => NaN end.

Definition Math_cos (a : number) : number :=
  match a with Fin x => Fin (cos x) | _ => NaN end.

Definition Math_tan (a : number) : number :=
  match a with
  | Fin x =>
      if Req_dec_T (cos x) 0 then signed (sin x) PInf else Fin (tan x)
  | _ => NaN
  end.

Definition Math_atan (a : number) : number :=
  match a with
  | Fin x => Fin (atan x)
  | PInf => Fin (PI / 2)
  | NInf => Fin (- (PI / 2))
  | NaN => NaN
  end.

(** [Math.atan2(y, x)], the angle of the point [(x, y)] in [(-PI, PI]]. *)
Definition Math_atan2 (y x : number) : number :=
  match y, x with
  | NaN, _ | _, NaN => NaN
  | Fin b, Fin a =>
      if Rlt_dec 0 a then Fin (atan (b / a))
      else if Rlt_dec a 0 then
        (if Rlt_dec b 0 then Fin (atan (b / a) - PI) else Fin (atan (b / a) + PI))
      else if Rlt_dec 0 b then Fin (PI / 2)
      else if Rlt_dec b 0 then Fin (- (PI / 2))
      else Fin 0
  | Fin b, PInf => Fin 0
  | Fin b, NInf => if Rlt_dec b 0 then Fin (- PI) else Fin PI
  | PInf, Fin _ => Fin (PI / 2)
  | NInf, Fin _ => Fin (- (PI / 2))
  | PInf, PInf => Fin (PI / 4)
  | PInf, NInf => Fin (3 * PI / 4)
  | NInf, PInf => Fin (- (PI / 4))
  | NInf, NInf => Fin (- (3 * PI / 4))
  end.

(** [Math.round]: the integer nearest to the argument, a tie going up
    (toward [+Infinity]), that is [floor (x + 1/2)]. *)
Definition Math_round (a : number) : number :=
  match a with
  | Fin x => Fin (IZR (Zfloor (x + / 2)))
  | other => other
  end.

(** [Math.pow] at an exponent that is a natural number. *)
Fixpoint Math_pow (b : number) (e : nat) : number :=
  match e with
  | O => Fin 1
  | S e' => mul b (Math_pow b e')
  end.

End JS.

Import JS.

Declare Scope js_scope.
Delimit Scope js_scope with js.
Bind Scope js_scope with number.
Infix "+" := add : js_scope.
Infix "-" := sub : js_scope.
Infix "*" := mul : js_scope.
Infix "/" := div : js_scope.
Infix "mod" := rem : js_scope.
Infix "<?" := lt : js_scope.
Infix ">?" := gt : js_scope.
Infix ">=?" := ge : js_scope.

(** ** The calculator, [class SatelliteCalculator] *)

(** The constructor's three fields. *)
Definition EARTH_RADIUS : number := Fin 6378.137.
Definition GEO_ALTITUDE : number := Fin 35786.
Definition GEO_RADIUS : number := (EARTH_RADIUS + GEO_ALTITUDE)%js.

Definition toRadians (degrees : number) : number :=
  (degrees * Math_PI / Fin 180)%js.

Definition toDegrees (radians : number) : number :=
  (radians * Fin 180 / Math_PI)%js.

(** [normalizeAngle]: the two [while] loops, each bounded by [fuel]
    iterations; [None] when a loop has not finished within its fuel. *)
Fixpoint while_negative (fuel : nat) (angle : number) : option number :=
  if (angle <? Fin 0)%js then
    match fuel with
    | O => None
    | S fuel' => while_negative fuel' (angle + Fin 360)%js
    end
  else Some angle.

Fixpoint while_ge_360 (fuel : nat) (angle : number) : option number :=
  if (angle >=? Fin 360)%js then
    match fuel with
    | O => None
    | S fuel' => while_ge_360 fuel' (angle - Fin 360)%js
    end
  else Some angle.

Definition normalizeAngle (fuel : nat) (angle : number) : option number :=
  match while_negative fuel angle with
  | Some angle' => while_ge_360 fuel angle'
  | None => None
  end.

Definition round (value : number) (decimals : nat) : number :=
  (Math_round (value * Math_pow (Fin 10) decimals) / Math_pow (Fin 10) decimals)%js.

Definition calculateAzimuth (fuel : nat) (obsLat obsLon satLon : number)
  : option number :=
  let latRad := toRadians obsLat in
  let lonDiff := toRadians (satLon - obsLon)%js in
  let azimuthRad := Math_atan2 (Math_tan lonDiff) (Math_sin latRad) in
  let azimuth := toDegrees azimuthRad in
  let azimuth :=
    if (obsLat <? Fin 0)%js then ((azimuth + Fin 360) mod Fin 360)%js
    else (Fin 180 + azimuth)%js in
  normalizeAngle fuel azimuth.

Definition calculateElevation (obsLat obsLon satLon : number) : number :=
  let latRad := toRadians obsLat in
  let lonDiffRad := toRadians (satLon - obsLon)%js in
  let cosGamma := (Math_cos latRad * Math_cos lonDiffRad)%js in
  let ratio := (GEO_RADIUS / EARTH_RADIUS)%js in
  let elevation :=
    Math_atan ((cosGamma - Fin 1 / ratio)
               / Math_sqrt (Fin 1 - cosGamma * cosGamma))%js in
  toDegrees elevation.

Definition calculateLNBTilt (obsLat obsLon satLon : number) : number :=
  let latRad := toRadians obsLat in
  let lonDiffRad := toRadians (satLon - obsLon)%js in
  let tiltRad := Math_atan (Math_sin lonDiffRad / Math_tan latRad)%js in
  toDegrees tiltRad.

Inductive SignalQuality : Type := none | poor | fair | good | excellent.

(** The [if / else if] chain of [calculateAll] that picks the quality. *)
Definition signalQuality_of (elevation : number) : SignalQuality :=
  if (elevation >? Fin 30)%js then excellent
  else if (elevation >? Fin 20)%js then good
  else if (elevation >? Fin 10)%js then fair
  else if (elevation >? Fin 0)%js then poor
  else none.

Record PointingSolution : Type := mkPointingSolution {
  azimuth : number;
  elevation : number;
  lnbTilt : number;
  isVisible : bool;
  signalQuality : SignalQuality
}.

Definition calculateAll (fuel : nat) (obsLat obsLon satLon : number)
  : option PointingSolution :=
  match calculateAzimuth fuel obsLat obsLon satLon with
  | None => None
  | Some azimuth =>
      let elevation := calculateElevation obsLat obsLon satLon in
      let lnbTilt := calculateLNBTilt obsLat obsLon satLon in
      let isVisible := (elevation >? Fin 0)%js in
      let signalQuality := signalQuality_of elevation in
      Some {| azimuth := round azimuth 1;
              elevation := round elevation 1;
              lnbTilt := round lnbTilt 1;
              isVisible := isVisible;
              signalQuality := signalQuality |}
  end.

Definition calculateDistance (obsLat obsLon satLon : number) : number :=
  let latRad := toRadians obsLat in
  let lonDiffRad := toRadians (satLon - obsLon)%js in
  let cosGamma := (Math_cos latRad * Math_cos lonDiffRad)%js in
  let distance :=
    Math_sqrt (EARTH_RADIUS * EARTH_RADIUS
               + GEO_RADIUS * GEO_RADIUS
               - Fin 2 * EARTH_RADIUS * GEO_RADIUS * cosGamma)%js in
  Math_round distance.

(** ** Reference definitions

    What the specification names (the valid inputs, [raw], wrapping into
    [[0, 360)], rounding half away from zero, the angular separation) and the
    auxiliary functions of the numerical proofs. *)

(** Degrees to radians and back, on reals. *)
Definition rad (d : R) : R := d * PI / 180.
Definition deg (r : R) : R := r * 180 / PI.

(** The contract of the callers: latitude in [[-90, 90]], both longitudes in
    [[-180, 180]]. *)
Definition valid_input (obsLat obsLon satLon : R) : Prop :=
  -90 <= obsLat <= 90 /\ -180 <= obsLon <= 180 /\ -180 <= satLon <= 180.

(** The specification's [raw]: [atan2 (tan dLambda, sin phi)] in degrees,
    with [dLambda = satLon - obsLon] and [phi = obsLat] in radians. *)
Definition azimuth_raw (obsLat obsLon satLon : number) : number :=
  toDegrees
    (Math_atan2 (Math_tan (toRadians (satLon - obsLon)%js))
                (Math_sin (toRadians obsLat))).

(** Wrapping an angle into [[0, 360)] by a single modulo. *)
Definition wrap360 (x : R) : R := x - 360 * IZR (Zfloor (x / 360)).

(** Rounding to the nearest integer, a tie going away from zero. *)
Definition round_half_away (x : R) : Z :=
  if Rle_dec 0 x then Zfloor (x + / 2) else Zceil (x - / 2).

(** The specification's rounding to one decimal place: multiply by ten,
    round half away from zero, divide by ten. *)
Definition spec_round1 (v : R) : R := IZR (round_half_away (v * 10)) / 10.

(** Rounding to the nearest integer, a tie going up. *)
Definition round_half_up (x : R) : Z := Zfloor (x + / 2).

(** The order of the signal qualities, [none] lowest. *)
Definition quality_rank (q : SignalQuality) : nat :=
  match q with
  | none => 0 | poor => 1 | fair => 2 | good => 3 | excellent => 4
  end.

(** The cosine of the great-circle angle between the observer and the
    sub-satellite point, and the angle itself. *)
Definition cosGamma_of (obsLat obsLon satLon : R) : R :=
  cos (rad obsLat) * cos (rad (satLon - obsLon)).

Definition separation (obsLat obsLon satLon : R) : R :=
  acos (cosGamma_of obsLat obsLon satLon).

(** The constants as reals. *)
Definition R_e : R := 6378.137.
Definition R_g : R := 6378.137 + 35786.

(** The body of [calculateElevation] after [cosGamma] has been computed:
    the elevation as a function of [cosGamma]. *)
Definition elevation_of_cosGamma (cosGamma : number) : number :=
  let ratio := (GEO_RADIUS / EARTH_RADIUS)%js in
  let elevation :=
    Math_atan ((cosGamma - Fin 1 / ratio)
               / Math_sqrt (Fin 1 - cosGamma * cosGamma))%js in
  toDegrees elevation.

(** Auxiliary: partial sums of the sine and cosine series, used as lower and
    upper bounds of the two functions on [[0, 3/2]]. *)
Definition sin_lo (x : R) : R :=
  x - x^3/6 + x^5/120 - x^7/5040 + x^9/362880 - x^11/39916800
  + x^13/6227020800 - x^15/1307674368000.

Definition sin_hi (x : R) : R :=
  x - x^3/6 + x^5/120 - x^7/5040 + x^9/362880 - x^11/39916800
  + x^13/6227020800.

Definition cos_lo (x : R) : R :=
  1 - x^2/2 + x^4/24 - x^6/720 + x^8/40320 - x^10/3628800
  + x^12/479001600 - x^14/87178291200.

Definition cos_hi (x : R) : R :=
  1 - x^2/2 + x^4/24 - x^6/720 + x^8/40320 - x^10/3628800
  + x^12/479001600.

(** Fixed-point evaluation of the partial sums at an argument [n / s]: each
    sum multiplied by its common denominator is an integer polynomial in [n]
    and [s]. *)
Definition zp (z : Z) (k : nat) : Z := (z ^ Z.of_nat k)%Z.

Definition sin_lo_Z (s n : Z) : Z :=
  (1307674368000 * n * zp s 14 - 217945728000 * zp n 3 * zp s 12
   + 10897286400 * zp n 5 * zp s 10 - 259459200 * zp n 7 * zp s 8
   + 3603600 * zp n 9 * zp s 6 - 32760 * zp n 11 * zp s 4
   + 210 * zp n 13 * zp s 2 - zp n 15)%Z.

Definition sin_hi_Z (s n : Z) : Z :=
  (6227020800 * n * zp s 12 - 1037836800 * zp n 3 * zp s 10
   + 51891840 * zp n 5 * zp s 8 - 1235520 * zp n 7 * zp s 6
   + 17160 * zp n 9 * zp s 4 - 156 * zp n 11 * zp s 2
   + zp n 13)%Z.

Definition cos_lo_Z (s n : Z) : Z :=
  (87178291200 * zp s 14 - 43589145600 * zp n 2 * zp s 12
   + 3632428800 * zp n 4 * zp s 10 - 121080960 * zp n 6 * zp s 8
   + 2162160 * zp n 8 * zp s 6 - 24024 * zp n 10 * zp s 4
   + 182 * zp n 12 * zp s 2 - zp n 14)%Z.

Definition cos_hi_Z (s n : Z) : Z :=
  (479001600 * zp s 12 - 239500800 * zp n 2 * zp s 10
   + 19958400 * zp n 4 * zp s 8 - 665280 * zp n 6 * zp s 6
   + 11880 * zp n 8 * zp s 4 - 132 * zp n 10 * zp s 2
   + zp n 12)%Z.

Definition sin_lo_ok (s n m : Z) : bool :=
  (0 <? s)%Z && (m * (1307674368000 * zp s 14) <=? sin_lo_Z s n)%Z.
Definition sin_hi_ok (s n m : Z) : bool :=
  (0 <? s)%Z && (sin_hi_Z s n <=? m * (6227020800 * zp s 12))%Z.
Definition cos_lo_ok (s n m : Z) : bool :=
  (0 <? s)%Z && (m * (87178291200 * zp s 13) <=? cos_lo_Z s n)%Z.
Definition cos_hi_ok (s n m : Z) : bool :=
  (0 <? s)%Z && (cos_hi_Z s n <=? m * (479001600 * zp s 11))%Z.

(** ** The rest of the code: further primitives

    The other classes of the repository and the callers of the calculator
    use a few more operations on numbers. *)

Definition Math_abs (a : number) : number :=
  match a with
  | Fin x => Fin (Rabs x)
  | PInf | NInf => PInf
  | NaN => NaN
  end.

Definition Math_min (a b : number) : number :=
  match a, b with
  | NaN, _ | _, NaN => NaN
  | _, _ => if (a <? b)%js then a else b
  end.

Definition Math_max (a b : number) : number :=
  match a, b with
  | NaN, _ | _, NaN => NaN
  | _, _ => if (a <? b)%js then b else a
  end.


(** [parseFloat] applied to a value that is already a number. *)
Definition parseFloat (a : number) : number := a.

(** [v || 0] for a value that is a number or [null]: [null], [NaN] and [0]
    are falsy. *)
Definition or_zero (v : option number) : number :=
  match v with
  | None | Some NaN => Fin 0
  | Some x => x
  end.


(** The pair of loops that brings a difference of two bearings into
    [[-180, 180]]; it stands in [SatFinderApp.init] (app.js 40-41) and in
    [ARHandler.drawSatelliteMarker] (ar.js 92-93). *)
Fixpoint while_gt_180 (fuel : nat) (diff : number) : option number :=
  if (diff >? Fin 180)%js then
    match fuel with
    | O => None
    | S fuel' => while_gt_180 fuel' (diff - Fin 360)%js
    end
  else Some diff.

Fixpoint while_lt_minus_180 (fuel : nat) (diff : number) : option number :=
  if (diff <? Fin (-180))%js then
    match fuel with
    | O => None
    | S fuel' => while_lt_minus_180 fuel' (diff + Fin 360)%js
    end
  else Some diff.

Definition wrap_diff (fuel : nat) (diff : number) : option number :=
  match while_gt_180 fuel diff with
  | Some diff' => while_lt_minus_180 fuel diff'
  | None => None
  end.

(** The event of the device orientation sensor: [webkitCompassHeading] is a
    number or absent ([undefined]), the angles are numbers or [null]. *)
Record OrientationEvent : Type := mkOrientationEvent {
  webkitCompassHeading : option number;
  ev_alpha : option number;
  ev_beta : option number;
  ev_gamma : option number
}.

(** ** [class LocationHandler] (js/location.js) *)

Module LocationHandler.

Record Location : Type := mkLocation {
  lat : number;
  lon : number;
  accuracy : number;
  altitude : option number;
  timestamp : number;
  isManual : bool
}.

(** The handler: the stored location, the registered callbacks (named by
    numbers) and, as the trace of [notifyListeners], the calls made so far,
    oldest first. *)
Record state : Type := mkState {
  currentLocation : option Location;
  listeners : list nat;
  notified : list (nat * option Location)
}.

Definition notifyListeners (st : state) : state :=
  {| currentLocation := currentLocation st;
     listeners := listeners st;
     notified := (notified st
                  ++ List.map (fun callback => (callback, currentLocation st))
                              (listeners st))%list |}.

(** [setManualLocation]: the left result is the message of the thrown error;
    [now] is the value of [Date.now()]. *)
Definition setManualLocation (now : number) (lat lon : number) (st : state)
  : string + (Location * state) :=
  if ((lat <? Fin (-90)) || (lat >? Fin 90))%js then
    inl "Latitude must be between -90 and 90 degrees"%string
  else if ((lon <? Fin (-180)) || (lon >? Fin 180))%js then
    inl "Longitude must be between -180 and 180 degrees"%string
  else
    let loc := {| lat := parseFloat lat;
                  lon := parseFloat lon;
                  accuracy := Fin 0;
                  altitude := None;
                  timestamp := now;
                  isManual := true |} in
    let st' := notifyListeners {| currentLocation := Some loc;
                                  listeners := listeners st;
                                  notified := notified st |} in
    inr (loc, st').





Definition toRad (deg : number) : number := (deg * Math_PI / Fin 180)%js.

(** The haversine distance of two points. *)
Definition calculateDistance (lat1 lon1 lat2 lon2 : number) : number :=
  let R := Fin 6371 in
  let dLat := toRad (lat2 - lat1)%js in
  let dLon := toRad (lon2 - lon1)%js in
  let a :=
    (Math_sin (dLat / Fin 2) * Math_sin (dLat / Fin 2)
     + Math_cos (toRad lat1) * Math_cos (toRad lat2)
       * Math_sin (dLon / Fin 2) * Math_sin (dLon / Fin 2))%js in
  let c := (Fin 2 * Math_atan2 (Math_sqrt a) (Math_sqrt (Fin 1 - a)))%js in
  (R * c)%js.

End LocationHandler.

(** ** [class SoundHandler] (js/sound.js) *)

Module SoundHandler.

(** What [setInterval (() => this.beep (frequency, duration), period)]
    schedules. *)
Record Beeper : Type := mkBeeper {
  frequency : number;
  duration : number;
  period : number
}.

(** The handler's fields that the alignment feedback uses, together with
    the intervals that are active in the environment.  [setInterval] returns
    a fresh positive id. *)
Record state : Type := mkState {
  isEnabled : bool;
  volume : number;
  beepInterval : option positive;
  lastAngleDiff : option number;
  intervals : list (positive * Beeper);
  next_id : positive
}.

Definition setInterval (b : Beeper) (st : state) : state :=
  {| isEnabled := isEnabled st;
     volume := volume st;
     beepInterval := Some (next_id st);
     lastAngleDiff := lastAngleDiff st;
     intervals := (intervals st ++ (next_id st, b) :: nil)%list;
     next_id := Pos.succ (next_id st) |}.

Definition clearInterval (id : positive) (st : state) : state :=
  {| isEnabled := isEnabled st;
     volume := volume st;
     beepInterval := beepInterval st;
     lastAngleDiff := lastAngleDiff st;
     intervals := List.filter (fun t => negb (Pos.eqb (fst t) id)) (intervals st);
     next_id := next_id st |}.

Definition stopBeeping (st : state) : state :=
  match beepInterval st with
  | Some id =>
      let st' := clearInterval id st in
      {| isEnabled := isEnabled st';
         volume := volume st';
         beepInterval := None;
         lastAngleDiff := lastAngleDiff st';
         intervals := intervals st';
         next_id := next_id st' |}
  | None => st
  end.

Definition updateAlignment (angleDiff : number) (st : state) : state :=
  if negb (isEnabled st) then st
  else
    let st1 := {| isEnabled := isEnabled st;
                  volume := volume st;
                  beepInterval := beepInterval st;
                  lastAngleDiff := Some angleDiff;
                  intervals := intervals st;
                  next_id := next_id st |} in
    let absDiff := Math_abs angleDiff in
    let st2 := stopBeeping st1 in
    if (absDiff <? Fin 2)%js then
      setInterval (mkBeeper (Fin 1200) (Fin 50) (Fin 100)) st2
    else if (absDiff <? Fin 5)%js then
      setInterval (mkBeeper (Fin 1000) (Fin 80) (Fin 200)) st2
    else if (absDiff <? Fin 15)%js then
      setInterval (mkBeeper (Fin 800) (Fin 100) (Fin 400)) st2
    else if (absDiff <? Fin 30)%js then
      setInterval (mkBeeper (Fin 600) (Fin 100) (Fin 800)) st2
    else st2.

Definition disable (st : state) : state :=
  stopBeeping {| isEnabled := false;
                 volume := volume st;
                 beepInterval := beepInterval st;
                 lastAngleDiff := lastAngleDiff st;
                 intervals := intervals st;
                 next_id := next_id st |}.

Definition setVolume (v : number) (st : state) : state :=
  {| isEnabled := isEnabled st;
     volume := Math_max (Fin 0) (Math_min (Fin 1) v);
     beepInterval := beepInterval st;
     lastAngleDiff := lastAngleDiff st;
     intervals := intervals st;
     next_id := next_id st |}.

(** [enable] on the fields of the state; the audio context and the single
    confirming beep it schedules are not part of the state. *)
Definition enable (st : state) : state :=
  {| isEnabled := true;
     volume := volume st;
     beepInterval := beepInterval st;
     lastAngleDiff := lastAngleDiff st;
     intervals := intervals st;
     next_id := next_id st |}.

Definition toggle (st : state) : bool * state :=
  let st' := if isEnabled st then disable st else enable st in
  (isEnabled st', st').

(** The fields as the constructor sets them, in an environment without
    intervals. *)
Definition initial : state :=
  {| isEnabled := false;
     volume := Fin 0.5;
     beepInterval := None;
     lastAngleDiff := None;
     intervals := nil;
     next_id := 1%positive |}.

(** The calls a client can make, and a sequence of them. *)
Inductive call : Type :=
| CallUpdateAlignment (angleDiff : number)
| CallStopBeeping
| CallEnable
| CallDisable
| CallToggle
| CallSetVolume (v : number).

Definition step (st : state) (c : call) : state :=
  match c with
  | CallUpdateAlignment angleDiff => updateAlignment angleDiff st
  | CallStopBeeping => stopBeeping st
  | CallEnable => enable st
  | CallDisable => disable st
  | CallToggle => snd (toggle st)
  | CallSetVolume v => setVolume v st
  end.

Definition run (calls : list call) (st : state) : state :=
  List.fold_left step calls st.

(** The beepers that are sounding. *)
Definition sounding (st : state) : list Beeper := List.map snd (intervals st).

(** The handler knows the interval that is active, if any. *)
Definition consistent (st : state) : Prop :=
  match beepInterval st with
  | Some id => exists b, intervals st = (id, b) :: nil
  | None => intervals st = nil
  end.

End SoundHandler.

(** ** [class CompassHandler] (js/sound.js) *)

Module CompassHandler.

Record state : Type := mkState {
  currentHeading : option number;
  targetAzimuth : option number;
  magneticDeclination : number;
  headingHistory : list number;
  historySize : nat
}.

(** The fields as the constructor sets them. *)
Definition initial : state :=
  {| currentHeading := None;
     targetAzimuth := None;
     magneticDeclination := Fin 0;
     headingHistory := nil;
     historySize := 5 |}.

(** [push] followed by the conditional [shift]. *)
Definition push_history (history : list number) (size : nat) (h : number)
  : list number :=
  let history' := (history ++ h :: nil)%list in
  if (size <? List.length history')%nat then List.tl history' else history'.

Definition sinSum_of (history : list number) : number :=
  List.fold_left
    (fun sinSum v => (sinSum + Math_sin (v * Math_PI / Fin 180))%js)
    history (Fin 0).

Definition cosSum_of (history : list number) : number :=
  List.fold_left
    (fun cosSum v => (cosSum + Math_cos (v * Math_PI / Fin 180))%js)
    history (Fin 0).

Definition smoothHeading (h : number) (st : state) : number * state :=
  let history := push_history (headingHistory st) (historySize st) h in
  let sinSum := sinSum_of history in
  let cosSum := cosSum_of history in
  (((Math_atan2 sinSum cosSum * Fin 180 / Math_PI + Fin 360) mod Fin 360)%js,
   {| currentHeading := currentHeading st;
      targetAzimuth := targetAzimuth st;
      magneticDeclination := magneticDeclination st;
      headingHistory := history;
      historySize := historySize st |}).

(** [handleOrientation]: the new state and the heading handed to the
    listeners, [None] when the event carries no heading.  The writes to the
    page made by [updateDisplay] are not part of the state. *)
Definition handleOrientation (event : OrientationEvent) (st : state)
  : option number * state :=
  let raw :=
    match webkitCompassHeading event with
    | Some heading => Some heading
    | None =>
        match ev_alpha event with
        | Some alpha => Some (Fin 360 - alpha)%js
        | None => None
        end
    end in
  match raw with
  | None => (None, st)
  | Some heading =>
      let heading := ((heading + magneticDeclination st + Fin 360) mod Fin 360)%js in
      let '(heading, st') := smoothHeading heading st in
      (Some heading,
       {| currentHeading := Some heading;
          targetAzimuth := targetAzimuth st';
          magneticDeclination := magneticDeclination st';
          headingHistory := headingHistory st';
          historySize := historySize st' |})
  end.






End CompassHandler.

(** ** [class ARHandler] (js/ar.js) *)

Module ARHandler.

Record DeviceOrientation : Type := mkDeviceOrientation {
  alpha : number;
  beta : number;
  gamma : number
}.

Record Satellite : Type := mkSatellite {
  name : string;
  position : number
}.

Definition handleOrientation (event : OrientationEvent) : DeviceOrientation :=
  {| alpha := or_zero (ev_alpha event);
     beta := or_zero (ev_beta event);
     gamma := or_zero (ev_gamma event) |}.

(** [drawSatelliteMarker] up to the point [(x, y)] around which the marker
    and its label are drawn: [Some None] when the method returns without
    drawing, [None] when a loop has not finished within its fuel. *)
Definition drawSatelliteMarker (fuel : nat)
  (selectedSatellite : option Satellite)
  (userLocation : option LocationHandler.Location)
  (deviceOrientation : DeviceOrientation) (width height : number)
  : option (option (number * number)) :=
  match selectedSatellite, userLocation with
  | Some sat, Some loc =>
      match calculateAll fuel (LocationHandler.lat loc) (LocationHandler.lon loc)
                         (position sat) with
      | None => None
      | Some calc =>
          if negb (isVisible calc) then Some None
          else
            let heading := ((Fin 360 - alpha deviceOrientation) mod Fin 360)%js in
            match wrap_diff fuel (azimuth calc - heading)%js with
            | None => None
            | Some angleDiff =>
                let hFov := Fin 60 in
                if (Math_abs angleDiff >? hFov / Fin 2)%js then Some None
                else
                  let x := (width / Fin 2
                            + (angleDiff / (hFov / Fin 2)) * (width / Fin 2))%js in
                  let pitch := (beta deviceOrientation - Fin 90)%js in
                  let elevDiff := (elevation calc - pitch)%js in
                  let y := (height / Fin 2
                            - (elevDiff / Fin 30) * (height / Fin 2))%js in
                  Some (Some (x, y))
            end
      end
  | _, _ => Some None
  end.

End ARHandler.

(** ** [class SatFinderApp] (js/app.js) *)

Module SatFinderApp.

(** The listener that [init] registers with the compass (app.js 37-44):
    the sound handler after a new heading. *)
Definition compassListener (fuel : nat) (calculatedData : option PointingSolution)
  (heading : number) (sound : SoundHandler.state) : option SoundHandler.state :=
  match calculatedData with
  | Some data =>
      if SoundHandler.isEnabled sound then
        match wrap_diff fuel (azimuth data - heading)%js with
        | Some diff => Some (SoundHandler.updateAlignment diff sound)
        | None => None
        end
      else Some sound
  | None => Some sound
  end.


(** The update of [favorites] in [toggleFavorite]: [indexOf], then [splice]
    of the found entry or [push]. *)
Fixpoint remove_first (name : string) (favorites : list string) : list string :=
  match favorites with
  | nil => nil
  | f :: rest =>
      if String.eqb f name then rest else f :: remove_first name rest
  end.

Definition toggleFavorite (name : string) (favorites : list string)
  : list string :=
  if List.existsb (String.eqb name) favorites then remove_first name favorites
  else (favorites ++ name :: nil)%list.

End SatFinderApp.

(** ** Sums computed by a caller

    The calculator receives its longitudes as they are.  A caller that
    shifts them computes [obsLon + c] and [satLon + c] before the call, and
    a sum of two numbers is a binary64 number: the exact sum rounded to the
    nearest number with a significand of 53 bits, a tie going to the even
    significand, and to an infinity from [2^1024] on. *)

(** The exponent [e] with [2^e <= |x| < 2^(e+1)], and for the smaller
    numbers that of the least normal number. *)
Definition binade (x : R) : Z :=
  Z.max (-1022) (Zfloor (ln (Rabs x) / ln 2)).

(** The distance between the binary64 numbers around [x]. *)
Definition ulp (x : R) : R := powerRZ 2 (binade x - 52).

Definition round_ties_even (q : R) : Z :=
  let f := Zfloor q in
  if Rlt_dec (q - IZR f) (/ 2) then f
  else if Rlt_dec (/ 2) (q - IZR f) then (f + 1)%Z
  else if Z.even f then f else (f + 1)%Z.

Definition binary64 (x : R) : number :=
  let r := IZR (round_ties_even (x / ulp x)) * ulp x in
  if Rle_dec (powerRZ 2 1024) (Rabs r) then
    (if Rlt_dec 0 x then PInf else NInf)
  else Fin r.

(** [a + b] as a caller computes it. *)
Definition add64 (a b : number) : number :=
  match (a + b)%js with
  | Fin x => binary64 x
  | other => other
  end.

(** ** Notions used to state the behaviour of the callers *)

(** What the two guards of [setManualLocation] let through: a number within
    the bounds, and [NaN], for which both comparisons are false. *)
Definition within_or_NaN (lo hi : R) (a : number) : Prop :=
  match a with
  | Fin x => lo <= x <= hi
  | NaN => True
  | PInf | NInf => False
  end.

(** A volume that [setVolume] can leave behind. *)
Definition unit_or_NaN (a : number) : Prop :=
  match a with
  | Fin x => 0 <= x <= 1
  | NaN => True
  | PInf | NInf => False
  end.


(** ** Evaluation of the primitives on finite numbers *)

Lemma R_ltb_true x y : x < y -> R_ltb x y = true.
Proof. intros H; unfold R_ltb; destruct (Rlt_dec x y); [reflexivity | contradiction]. Qed.

Lemma R_ltb_false x y : y <= x -> R_ltb x y = false.
Proof. intros H; unfold R_ltb; destruct (Rlt_dec x y); [lra | reflexivity]. Qed.

Lemma R_ltb_spec x y : R_ltb x y = true <-> x < y.
Proof. unfold R_ltb; destruct (Rlt_dec x y); split; auto; discriminate. Qed.

Lemma R_leb_false x y : y < x -> R_leb x y = false.
Proof. intros H; unfold R_leb; destruct (Rle_dec x y); [lra | reflexivity]. Qed.

Lemma gt_Fin x y : (Fin x >? Fin y)%js = R_ltb y x.
Proof. reflexivity. Qed.

Lemma div_Fin x y : y <> 0 -> (Fin x / Fin y)%js = Fin (x / y).
Proof. intros H; simpl; destruct (Req_dec_T y 0); [contradiction | reflexivity]. Qed.

Lemma toRadians_Fin d : toRadians (Fin d) = Fin (rad d).
Proof. unfold toRadians, Math_PI, rad; simpl mul; apply div_Fin; lra. Qed.

Lemma toDegrees_Fin r : toDegrees (Fin r) = Fin (deg r).
Proof.
  unfold toDegrees, Math_PI, deg; simpl mul; apply div_Fin.
  apply PI_neq0.
Qed.

Lemma sub_Fin x y : (Fin x - Fin y)%js = Fin (x - y).
Proof. reflexivity. Qed.

Lemma round_Fin v : round (Fin v) 1 = Fin (IZR (round_half_up (v * 10)) / 10).
Proof.
  unfold round, round_half_up; simpl.
  rewrite Rmult_1_r.
  destruct (Req_dec_T 10 0); [lra | reflexivity].
Qed.

Lemma round_NaN : round NaN 1 = NaN.
Proof. reflexivity. Qed.

Lemma calculateAll_fields fuel a b c p :
  calculateAll fuel a b c = Some p ->
  exists az,
    calculateAzimuth fuel a b c = Some az /\
    azimuth p = round az 1 /\
    elevation p = round (calculateElevation a b c) 1 /\
    lnbTilt p = round (calculateLNBTilt a b c) 1 /\
    isVisible p = (calculateElevation a b c >? Fin 0)%js /\
    signalQuality p = signalQuality_of (calculateElevation a b c).
Proof.
  unfold calculateAll.
  destruct (calculateAzimuth fuel a b c) as [az|]; [|discriminate].
  intros H; injection H as <-.
  exists az; simpl; repeat split; reflexivity.
Qed.

(** ** Signal quality (C6) *)

Lemma signalQuality_of_Fin e :
  signalQuality_of (Fin e) =
    if R_ltb 30 e then excellent
    else if R_ltb 20 e then good
    else if R_ltb 10 e then fair
    else if R_ltb 0 e then poor
    else none.
Proof. reflexivity. Qed.

(** C6: the quality is a step function of the elevation with thresholds
    30, 20, 10 and 0, each band open at its lower end; an elevation of exactly
    30 is [good], an elevation of exactly 0 is [none] and not visible; and
    [calculateAll] stores exactly this classification of the elevation it
    computed. *)
Theorem C6_signal_quality_steps :
  (forall e : R,
      (30 < e -> signalQuality_of (Fin e) = excellent) /\
      (20 < e <= 30 -> signalQuality_of (Fin e) = good) /\
      (10 < e <= 20 -> signalQuality_of (Fin e) = fair) /\
      (0 < e <= 10 -> signalQuality_of (Fin e) = poor) /\
      (e <= 0 -> signalQuality_of (Fin e) = none)) /\
  signalQuality_of (Fin 30) = good /\
  signalQuality_of (Fin 0) = none /\
  (Fin 0 >? Fin 0)%js = false /\
  (forall fuel obsLat obsLon satLon p,
      calculateAll fuel obsLat obsLon satLon = Some p ->
      signalQuality p = signalQuality_of (calculateElevation obsLat obsLon satLon) /\
      isVisible p = (calculateElevation obsLat obsLon satLon >? Fin 0)%js).
Proof.
  assert (steps : forall e : R,
      (30 < e -> signalQuality_of (Fin e) = excellent) /\
      (20 < e <= 30 -> signalQuality_of (Fin e) = good) /\
      (10 < e <= 20 -> signalQuality_of (Fin e) = fair) /\
      (0 < e <= 10 -> signalQuality_of (Fin e) = poor) /\
      (e <= 0 -> signalQuality_of (Fin e) = none)).
  { intros e; rewrite signalQuality_of_Fin.
    repeat split; intros H.
    - rewrite R_ltb_true by lra; reflexivity.
    - rewrite (R_ltb_false 30), R_ltb_true by lra; reflexivity.
    - rewrite (R_ltb_false 30), (R_ltb_false 20), R_ltb_true by lra; reflexivity.
    - rewrite (R_ltb_false 30), (R_ltb_false 20), (R_ltb_false 10), R_ltb_true
        by lra; reflexivity.
    - rewrite !R_ltb_false by lra; reflexivity. }
  split; [exact steps|].
  split; [apply (steps 30); lra|].
  split; [apply (steps 0); lra|].
  split; [rewrite gt_Fin; apply R_ltb_false; lra|].
  intros fuel a b c p Hp.
  destruct (calculateAll_fields _ _ _ _ _ Hp) as (az & _ & _ & _ & _ & Hv & Hq).
  split; assumption.
Qed.

Lemma C6_signal_quality_steps_witness :
  signalQuality_of (Fin 30.1) = excellent /\ signalQuality_of (Fin 0.1) = poor.
Proof.
  destruct C6_signal_quality_steps as [steps _].
  split.
  - apply (steps 30.1); lra.
  - apply (steps 0.1); lra.
Defined.

(** ** Rounding to one decimal place (C8) *)

(** C8, as the specification words it, fails on a negative tie: -0.25 is
    stored as -0.2, where rounding half away from zero gives -0.3. *)
Lemma C8_round_half_away_counterexample :
  round (Fin (-0.25)) 1 = Fin (-0.2) /\
  spec_round1 (-0.25) = -0.3 /\
  round (Fin (-0.25)) 1 <> Fin (spec_round1 (-0.25)).
Proof.
  assert (Hcode : round (Fin (-0.25)) 1 = Fin (-0.2)).
  { rewrite round_Fin; unfold round_half_up.
    rewrite (Zfloor_eq (-2)) by (split; lra).
    f_equal; lra. }
  assert (Hspec : spec_round1 (-0.25) = -0.3).
  { unfold spec_round1, round_half_away.
    destruct (Rle_dec 0 (-0.25 * 10)); [lra|].
    rewrite (Zceil_eq (-3)) by (split; lra).
    lra. }
  repeat split; trivial.
  rewrite Hcode, Hspec; intros H; injection H; lra.
Qed.

Lemma round_half_up_away x :
  ~ (x < 0 /\ exists k : Z, x = IZR k + / 2) ->
  round_half_up x = round_half_away x.
Proof.
  intros Htie; unfold round_half_up, round_half_away.
  destruct (Rle_dec 0 x) as [Hx|Hx]; [reflexivity|].
  symmetry; apply Zceil_eq.
  pose proof (Zfloor_bound (x + / 2)) as [Hlo Hhi].
  split; [|lra].
  destruct Hlo as [Hlo|Hlo]; [lra|].
  exfalso; apply Htie; split; [lra|].
  exists (Zfloor (x + / 2) - 1)%Z.
  rewrite minus_IZR; lra.
Qed.

(** C8, amended: the stored field is [floor (v * 10 + 1/2) / 10], rounding
    half up; it is the specification's rounding half away from zero unless
    [v] is negative and [v * 10] lies exactly halfway between two integers.
    The three rounded fields of [calculateAll] are this rounding of the three
    computed angles. *)
Theorem C8_round_half_up :
  (forall v : R,
      round (Fin v) 1 = Fin (IZR (Zfloor (v * 10 + / 2)) / 10) /\
      (~ (v < 0 /\ exists k : Z, v * 10 = IZR k + / 2) ->
       round (Fin v) 1 = Fin (spec_round1 v))) /\
  (forall fuel obsLat obsLon satLon p,
      calculateAll fuel obsLat obsLon satLon = Some p ->
      exists az,
        calculateAzimuth fuel obsLat obsLon satLon = Some az /\
        azimuth p = round az 1 /\
        elevation p = round (calculateElevation obsLat obsLon satLon) 1 /\
        lnbTilt p = round (calculateLNBTilt obsLat obsLon satLon) 1).
Proof.
  split.
  - intros v; split.
    + apply round_Fin.
    + intros Htie; rewrite round_Fin; unfold spec_round1.
      rewrite round_half_up_away; [reflexivity|].
      intros [Hneg Hk]; apply Htie; split; [lra | exact Hk].
  - intros fuel a b c p Hp.
    destruct (calculateAll_fields _ _ _ _ _ Hp) as (az & H1 & H2 & H3 & H4 & _).
    exists az; auto.
Qed.

Lemma C8_round_half_up_witness :
  round (Fin 0.25) 1 = Fin (spec_round1 0.25).
Proof.
  apply (proj1 C8_round_half_up 0.25).
  intros [H _]; lra.
Defined.

(** ** Translation of both longitudes (C9) *)

(** C9, amended: each method reads the two longitudes only through the
    difference [satLon - obsLon] it computes, so two pairs of longitudes with
    the same difference give the same results; a common shift of both
    longitudes is such a pair whenever the two shifted longitudes still
    differ by [satLon - obsLon]. *)
Theorem C9_common_longitude_shift :
  forall (fuel : nat) (obsLat obsLon satLon obsLon' satLon' : number),
    (satLon' - obsLon')%js = (satLon - obsLon)%js ->
    calculateAzimuth fuel obsLat obsLon' satLon'
      = calculateAzimuth fuel obsLat obsLon satLon /\
    calculateElevation obsLat obsLon' satLon'
      = calculateElevation obsLat obsLon satLon /\
    calculateLNBTilt obsLat obsLon' satLon'
      = calculateLNBTilt obsLat obsLon satLon /\
    calculateDistance obsLat obsLon' satLon'
      = calculateDistance obsLat obsLon satLon /\
    calculateAll fuel obsLat obsLon' satLon'
      = calculateAll fuel obsLat obsLon satLon.
Proof.
  intros fuel obsLat obsLon satLon obsLon' satLon' Hdiff.
  assert (Haz : calculateAzimuth fuel obsLat obsLon' satLon'
      = calculateAzimuth fuel obsLat obsLon satLon).
  { unfold calculateAzimuth; rewrite Hdiff; reflexivity. }
  assert (Hel : calculateElevation obsLat obsLon' satLon'
      = calculateElevation obsLat obsLon satLon).
  { unfold calculateElevation; rewrite Hdiff; reflexivity. }
  assert (Htilt : calculateLNBTilt obsLat obsLon' satLon'
      = calculateLNBTilt obsLat obsLon satLon).
  { unfold calculateLNBTilt; rewrite Hdiff; reflexivity. }
  repeat split; trivial.
  - unfold calculateDistance; rewrite Hdiff; reflexivity.
  - unfold calculateAll; rewrite Haz, Hel, Htilt; reflexivity.
Qed.

Lemma C9_common_longitude_shift_witness :
  calculateAzimuth 1 (Fin 25) (Fin 65) (Fin 23)
    = calculateAzimuth 1 (Fin 25) (Fin 55) (Fin 13) /\
  calculateElevation (Fin 25) (Fin 65) (Fin 23)
    = calculateElevation (Fin 25) (Fin 55) (Fin 13) /\
  calculateLNBTilt (Fin 25) (Fin 65) (Fin 23)
    = calculateLNBTilt (Fin 25) (Fin 55) (Fin 13) /\
  calculateDistance (Fin 25) (Fin 65) (Fin 23)
    = calculateDistance (Fin 25) (Fin 55) (Fin 13) /\
  calculateAll 1 (Fin 25) (Fin 65) (Fin 23)
    = calculateAll 1 (Fin 25) (Fin 55) (Fin 13).
Proof.
  apply (C9_common_longitude_shift 1 (Fin 25) (Fin 55) (Fin 13) (Fin 65) (Fin 23)).
  simpl; f_equal; lra.
Defined.

(** ** Degrees and radians *)

Lemma rad_le a b : a <= b -> rad a <= rad b.
Proof. intros H; unfold rad; pose proof PI_RGT_0; nra. Qed.

Lemma rad_lt a b : a < b -> rad a < rad b.
Proof. intros H; unfold rad; pose proof PI_RGT_0; nra. Qed.

Lemma rad_0 : rad 0 = 0.
Proof. unfold rad; lra. Qed.

Lemma rad_90 : rad 90 = PI / 2.
Proof. unfold rad; lra. Qed.

Lemma rad_180 : rad 180 = PI.
Proof. unfold rad; lra. Qed.

Lemma rad_opp a : rad (- a) = - rad a.
Proof. unfold rad; lra. Qed.

Lemma deg_le a b : a <= b -> deg a <= deg b.
Proof.
  intros H; unfold deg, Rdiv.
  apply Rmult_le_compat_r; [left; apply Rinv_0_lt_compat, PI_RGT_0 | lra].
Qed.

Lemma deg_lt a b : a < b -> deg a < deg b.
Proof.
  intros H; unfold deg, Rdiv.
  apply Rmult_lt_compat_r; [apply Rinv_0_lt_compat, PI_RGT_0 | lra].
Qed.

Lemma deg_0 : deg 0 = 0.
Proof. unfold deg; lra. Qed.

Lemma deg_rad a : deg (rad a) = a.
Proof. unfold deg, rad; field; apply PI_neq0. Qed.

Lemma deg_PI2 : deg (PI / 2) = 90.
Proof. rewrite <- rad_90; apply deg_rad. Qed.

Lemma deg_PI : deg PI = 180.
Proof. rewrite <- rad_180; apply deg_rad. Qed.

Lemma deg_opp a : deg (- a) = - deg a.
Proof. unfold deg; lra. Qed.

Lemma deg_atan_bound q : -90 < deg (atan q) < 90.
Proof.
  pose proof (atan_bound q) as [Ha Hb].
  replace (- PI / 2) with (- (PI / 2)) in Ha by lra.
  apply deg_lt in Ha; apply deg_lt in Hb.
  rewrite deg_opp, deg_PI2 in Ha; rewrite deg_PI2 in Hb.
  lra.
Qed.

(** ** The constants *)

Lemma horizon_ratio : 0 < R_e / R_g < 1.
Proof.
  unfold R_e, R_g; split.
  - apply Rdiv_lt_0_compat; lra.
  - apply Rmult_lt_reg_r with (6378.137 + 35786); [lra|].
    unfold Rdiv; rewrite Rmult_assoc, Rinv_l; lra.
Qed.

Lemma inv_ratio : (Fin 1 / (GEO_RADIUS / EARTH_RADIUS))%js = Fin (R_e / R_g).
Proof.
  unfold GEO_RADIUS, EARTH_RADIUS, GEO_ALTITUDE; simpl add.
  rewrite div_Fin by lra.
  rewrite div_Fin.
  - f_equal; unfold R_e, R_g; field; lra.
  - intros H.
    assert (0 < (6378.137 + 35786) / 6378.137) by (apply Rdiv_lt_0_compat; lra).
    lra.
Qed.

(** ** The angle between observer and sub-satellite point *)

Lemma cosGamma_of_bounds lat lon sat : -1 <= cosGamma_of lat lon sat <= 1.
Proof.
  unfold cosGamma_of.
  pose proof (COS_bound (rad lat)) as [? ?].
  pose proof (COS_bound (rad (sat - lon))) as [? ?].
  split; nra.
Qed.

Lemma cosGamma_js lat lon sat :
  (Math_cos (toRadians (Fin lat)) * Math_cos (toRadians (Fin sat - Fin lon)))%js
  = Fin (cosGamma_of lat lon sat).
Proof. rewrite sub_Fin, !toRadians_Fin; reflexivity. Qed.

(** ** Evaluation of [calculateElevation] *)

Lemma calculateElevation_Fin lat lon sat :
  calculateElevation (Fin lat) (Fin lon) (Fin sat)
  = elevation_of_cosGamma (Fin (cosGamma_of lat lon sat)).
Proof.
  unfold calculateElevation, elevation_of_cosGamma.
  cbv zeta; rewrite cosGamma_js; reflexivity.
Qed.

Lemma sqrt_radicand_pos c : -1 < c < 1 -> 0 < sqrt (1 - c * c).
Proof. intros H; apply sqrt_lt_R0; nra. Qed.

Lemma elevation_inner c :
  -1 < c < 1 ->
  elevation_of_cosGamma (Fin c)
  = Fin (deg (atan ((c - R_e / R_g) / sqrt (1 - c * c)))).
Proof.
  intros H; unfold elevation_of_cosGamma; cbv zeta.
  rewrite inv_ratio; simpl mul; rewrite !sub_Fin.
  unfold Math_sqrt.
  destruct (Rlt_dec (1 - c * c) 0) as [Hneg|_]; [nra|].
  rewrite div_Fin by (pose proof (sqrt_radicand_pos c H); lra).
  simpl Math_atan; apply toDegrees_Fin.
Qed.

Lemma elevation_zenith : elevation_of_cosGamma (Fin 1) = Fin 90.
Proof.
  unfold elevation_of_cosGamma; cbv zeta.
  rewrite inv_ratio; simpl mul; rewrite !sub_Fin.
  unfold Math_sqrt.
  destruct (Rlt_dec (1 - 1 * 1) 0) as [Hneg|_]; [lra|].
  replace (1 - 1 * 1) with 0 by lra; rewrite sqrt_0.
  unfold div; destruct (Req_dec_T 0 0) as [_|Hn]; [|lra].
  unfold signed; pose proof horizon_ratio.
  destruct (Rlt_dec 0 (1 - R_e / R_g)); [|lra].
  simpl Math_atan; rewrite toDegrees_Fin, deg_PI2; reflexivity.
Qed.

Lemma elevation_nadir : elevation_of_cosGamma (Fin (-1)) = Fin (-90).
Proof.
  unfold elevation_of_cosGamma; cbv zeta.
  rewrite inv_ratio; simpl mul; rewrite !sub_Fin.
  unfold Math_sqrt.
  destruct (Rlt_dec (1 - -1 * -1) 0) as [Hneg|_]; [lra|].
  replace (1 - -1 * -1) with 0 by lra; rewrite sqrt_0.
  unfold div; destruct (Req_dec_T 0 0) as [_|Hn]; [|lra].
  unfold signed; pose proof horizon_ratio.
  destruct (Rlt_dec 0 (-1 - R_e / R_g)); [lra|].
  destruct (Rlt_dec (-1 - R_e / R_g) 0); [|lra].
  simpl Math_atan; rewrite toDegrees_Fin, deg_opp, deg_PI2; reflexivity.
Qed.

(** For every [cosGamma] in [[-1, 1]] the elevation is a finite number of
    degrees in [[-90, 90]]. *)
Lemma elevation_finite c :
  -1 <= c <= 1 ->
  exists e, elevation_of_cosGamma (Fin c) = Fin e /\ -90 <= e <= 90.
Proof.
  intros [Hlo Hhi].
  destruct (Req_dec_T c 1) as [->|H1].
  { exists 90; split; [apply elevation_zenith | lra]. }
  destruct (Req_dec_T c (-1)) as [->|H2].
  { exists (-90); split; [apply elevation_nadir | lra]. }
  eexists; split; [apply elevation_inner; lra|].
  match goal with |- _ <= deg (atan ?q) <= _ =>
    pose proof (deg_atan_bound q) end.
  lra.
Qed.

(** ** Square roots between explicit bounds *)

Lemma sqrt_lower l y : 0 <= l -> l * l <= y -> l <= sqrt y.
Proof.
  intros Hl H; rewrite <- (sqrt_square l Hl); apply sqrt_le_1_alt, H.
Qed.

Lemma sqrt_upper h y : 0 <= h -> y <= h * h -> sqrt y <= h.
Proof.
  intros Hh H; rewrite <- (sqrt_square h Hh); apply sqrt_le_1_alt, H.
Qed.

(** ** Elevation against angular separation (C7) *)

Lemma acos_lt_iff a b :
  -1 <= a <= 1 -> -1 <= b <= 1 -> (acos b < acos a <-> a < b).
Proof.
  intros Ha Hb.
  pose proof (acos_bound a) as [Ha0 Ha1].
  pose proof (acos_bound b) as [Hb0 Hb1].
  pose proof (cos_acos a Ha) as Hca.
  pose proof (cos_acos b Hb) as Hcb.
  split; intros H.
  - rewrite <- Hca, <- Hcb; apply cos_decreasing_1; assumption.
  - destruct (Rlt_dec (acos b) (acos a)) as [Hlt|Hge]; [assumption|].
    exfalso.
    assert (Hle : acos a <= acos b) by lra.
    pose proof (cos_decr_1 _ _ Ha0 Ha1 Hb0 Hb1 Hle); lra.
Qed.

Lemma elevation_arg_increasing c1 c2 :
  R_e / R_g <= c1 -> c1 < c2 -> c2 < 1 ->
  (c1 - R_e / R_g) / sqrt (1 - c1 * c1) < (c2 - R_e / R_g) / sqrt (1 - c2 * c2).
Proof.
  intros Hk H12 H2.
  pose proof horizon_ratio as [Hk0 _].
  assert (Hs2 : 0 < sqrt (1 - c2 * c2)) by (apply sqrt_radicand_pos; lra).
  assert (Hs12 : sqrt (1 - c2 * c2) < sqrt (1 - c1 * c1)).
  { apply sqrt_lt_1_alt; split; nra. }
  assert (Hinv : / sqrt (1 - c1 * c1) < / sqrt (1 - c2 * c2)).
  { apply Rinv_lt_contravar; [nra | assumption]. }
  assert (Hinv2 : 0 < / sqrt (1 - c2 * c2)) by (apply Rinv_0_lt_compat; lra).
  unfold Rdiv; nra.
Qed.

(** C7: on the visible side (cosGamma at least [R_e / R_g]) and for one
    satellite, an observer at a smaller angular separation from the
    sub-satellite point, equivalently with a larger cosGamma, has a strictly
    larger elevation; the elevation is exactly 0 when cosGamma is
    [R_e / R_g]. *)
Theorem C7_elevation_decreases_with_separation :
  forall lat1 lon1 lat2 lon2 sat : R,
    R_e / R_g <= cosGamma_of lat1 lon1 sat ->
    R_e / R_g <= cosGamma_of lat2 lon2 sat ->
    (separation lat2 lon2 sat < separation lat1 lon1 sat
     <-> cosGamma_of lat1 lon1 sat < cosGamma_of lat2 lon2 sat) /\
    (cosGamma_of lat1 lon1 sat < cosGamma_of lat2 lon2 sat ->
     exists e1 e2,
       calculateElevation (Fin lat1) (Fin lon1) (Fin sat) = Fin e1 /\
       calculateElevation (Fin lat2) (Fin lon2) (Fin sat) = Fin e2 /\
       0 <= e1 < e2) /\
    (cosGamma_of lat1 lon1 sat = R_e / R_g ->
     calculateElevation (Fin lat1) (Fin lon1) (Fin sat) = Fin 0).
Proof.
  intros lat1 lon1 lat2 lon2 sat.
  rewrite !calculateElevation_Fin; unfold separation.
  pose proof (cosGamma_of_bounds lat1 lon1 sat) as Hb1.
  pose proof (cosGamma_of_bounds lat2 lon2 sat) as Hb2.
  generalize dependent (cosGamma_of lat2 lon2 sat).
  generalize dependent (cosGamma_of lat1 lon1 sat).
  intros c1 Hb1 c2 Hb2 Hv1 Hv2.
  pose proof horizon_ratio as [Hk0 Hk1].
  split; [apply acos_lt_iff; assumption|].
  split.
  - intros H12.
    assert (He1 : 0 <= deg (atan ((c1 - R_e / R_g) / sqrt (1 - c1 * c1)))).
    { rewrite <- deg_0; apply deg_le.
      rewrite <- atan_0.
      assert (Hq : 0 <= (c1 - R_e / R_g) / sqrt (1 - c1 * c1)).
      { apply Rmult_le_pos; [lra|].
        left; apply Rinv_0_lt_compat, sqrt_radicand_pos; lra. }
      destruct Hq as [Hq| <-]; [left; apply atan_increasing; exact Hq | right; reflexivity]. }
    destruct (Req_dec_T c2 1) as [->|Hc2].
    + exists (deg (atan ((c1 - R_e / R_g) / sqrt (1 - c1 * c1)))), 90.
      rewrite elevation_inner by lra.
      rewrite elevation_zenith.
      repeat split; trivial.
      apply deg_atan_bound.
    + exists (deg (atan ((c1 - R_e / R_g) / sqrt (1 - c1 * c1)))),
             (deg (atan ((c2 - R_e / R_g) / sqrt (1 - c2 * c2)))).
      rewrite !elevation_inner by lra.
      repeat split; trivial.
      apply deg_lt, atan_increasing, elevation_arg_increasing; lra.
  - intros ->.
    rewrite elevation_inner by lra.
    f_equal.
    replace (R_e / R_g - R_e / R_g) with 0 by lra.
    unfold Rdiv at 1; rewrite Rmult_0_l, atan_0; apply deg_0.
Qed.

(** ** Slant range (C10) *)

Lemma calculateDistance_Fin lat lon sat :
  calculateDistance (Fin lat) (Fin lon) (Fin sat)
  = Fin (IZR (Zfloor
      (sqrt (R_e * R_e + R_g * R_g - 2 * R_e * R_g * cosGamma_of lat lon sat)
       + / 2))).
Proof.
  unfold calculateDistance; cbv zeta; rewrite cosGamma_js.
  unfold GEO_RADIUS, EARTH_RADIUS, GEO_ALTITUDE; simpl add; simpl mul.
  rewrite sub_Fin.
  set (c := cosGamma_of lat lon sat).
  pose proof (cosGamma_of_bounds lat lon sat) as Hc; fold c in Hc.
  match goal with |- context [Math_sqrt (Fin ?X)] =>
    replace X with (R_e * R_e + R_g * R_g - 2 * R_e * R_g * c)
      by (unfold R_e, R_g; ring)
  end.
  unfold Math_sqrt.
  destruct (Rlt_dec (R_e * R_e + R_g * R_g - 2 * R_e * R_g * c) 0) as [Hneg|_].
  - exfalso; unfold R_e, R_g in Hneg; nra.
  - reflexivity.
Qed.

Lemma distance_bounds c :
  -1 <= c <= 1 ->
  35786 <= sqrt (R_e * R_e + R_g * R_g - 2 * R_e * R_g * c) <= 48542.274.
Proof.
  intros Hc; split.
  - apply sqrt_lower; [lra|]. unfold R_e, R_g; lra.
  - apply sqrt_upper; [lra|]. unfold R_e, R_g; lra.
Qed.

(** C10: the distance is a whole number of kilometres between 35786, the
    geostationary altitude, and 48542, the sum of the two radii rounded.
    It holds for all finite inputs, the valid ones among them. *)
Theorem C10_distance_range :
  forall obsLat obsLon satLon : R,
  exists N : Z,
    calculateDistance (Fin obsLat) (Fin obsLon) (Fin satLon) = Fin (IZR N) /\
    (35786 <= N <= 48542)%Z.
Proof.
  intros lat lon sat.
  rewrite calculateDistance_Fin.
  pose proof (distance_bounds _ (cosGamma_of_bounds lat lon sat)) as [Hlo Hhi].
  set (d := sqrt _) in *.
  exists (Zfloor (d + / 2)); split; [reflexivity|].
  split.
  - apply Zfloor_lub; lra.
  - pose proof (Zfloor_bound (d + / 2)) as [Hf _].
    assert (Hlt : IZR (Zfloor (d + / 2)) < IZR 48543) by lra.
    apply lt_IZR in Hlt; lia.
Qed.

(** ** The two-argument arctangent *)

Lemma cos_0_sin_neq_0 x : cos x = 0 -> sin x <> 0.
Proof.
  intros Hc Hs; pose proof (sin2_cos2 x) as H.
  unfold Rsqr in H; rewrite Hc, Hs in H; lra.
Qed.

Lemma Math_tan_not_NaN x : Math_tan (Fin x) <> NaN.
Proof.
  unfold Math_tan, signed.
  destruct (Req_dec_T (cos x) 0) as [Hc|Hc]; [|discriminate].
  pose proof (cos_0_sin_neq_0 x Hc).
  destruct (Rlt_dec 0 (sin x)); [discriminate|].
  destruct (Rlt_dec (sin x) 0); [discriminate|].
  lra.
Qed.

Lemma atan2_north y s :
  y <> NaN -> 0 <= s ->
  exists r, Math_atan2 y (Fin s) = Fin r /\ - (PI / 2) <= r <= PI / 2.
Proof.
  intros Hy Hs; pose proof PI_RGT_0 as Hpi.
  destruct y as [b| | |]; simpl; [| | |contradiction].
  - destruct (Rlt_dec 0 s) as [Hpos|Hz].
    + exists (atan (b / s)); split; [reflexivity|].
      pose proof (atan_bound (b / s)); lra.
    + destruct (Rlt_dec s 0); [lra|].
      destruct (Rlt_dec 0 b); [exists (PI / 2); split; [reflexivity | lra]|].
      destruct (Rlt_dec b 0); [exists (- (PI / 2)); split; [reflexivity | lra]|].
      exists 0; split; [reflexivity | lra].
  - exists (PI / 2); split; [reflexivity | lra].
  - exists (- (PI / 2)); split; [reflexivity | lra].
Qed.

Lemma atan2_south y s :
  y <> NaN -> s < 0 ->
  exists r, Math_atan2 y (Fin s) = Fin r /\
            (PI / 2 <= r <= PI \/ - PI < r <= - (PI / 2)).
Proof.
  intros Hy Hs; pose proof PI_RGT_0 as Hpi.
  destruct y as [b| | |]; simpl; [| | |contradiction].
  - destruct (Rlt_dec 0 s); [lra|].
    destruct (Rlt_dec s 0); [|lra].
    pose proof (atan_bound (b / s)) as [Hlo Hhi].
    assert (Hinv : / s < 0) by (apply Rinv_lt_0_compat; assumption).
    destruct (Rlt_dec b 0) as [Hb|Hb].
    + exists (atan (b / s) - PI); split; [reflexivity | right].
      assert (0 < atan (b / s)).
      { rewrite <- atan_0; apply atan_increasing; unfold Rdiv; nra. }
      lra.
    + exists (atan (b / s) + PI); split; [reflexivity | left].
      assert (atan (b / s) <= 0).
      { assert (Hq : b / s <= 0) by (unfold Rdiv; nra).
        rewrite <- atan_0.
        destruct Hq as [Hq|Hq]; [left; apply atan_increasing; exact Hq | rewrite Hq; lra]. }
      lra.
  - exists (PI / 2); split; [reflexivity | left; lra].
  - exists (- (PI / 2)); split; [reflexivity | right; lra].
Qed.

(** ** Wrapping, remainder and [normalizeAngle] *)

Lemma wrap360_id x : 0 <= x < 360 -> wrap360 x = x.
Proof.
  intros H; unfold wrap360.
  rewrite (Zfloor_eq 0) by (split; lra); lra.
Qed.

Lemma wrap360_neg x : -360 <= x < 0 -> wrap360 x = x + 360.
Proof.
  intros H; unfold wrap360.
  rewrite (Zfloor_eq (-1)) by (split; lra); lra.
Qed.

Lemma wrap360_range x : 0 <= wrap360 x < 360.
Proof.
  unfold wrap360; pose proof (Zfloor_bound (x / 360)); lra.
Qed.

Lemma rem360_small x : 0 <= x < 360 -> (Fin x mod Fin 360)%js = Fin x.
Proof.
  intros H; unfold rem.
  destruct (Req_dec_T 360 0); [lra|].
  unfold Ztrunc; destruct (Rlt_dec (x / 360) 0); [lra|].
  rewrite (Zfloor_eq 0) by (split; lra); f_equal; lra.
Qed.

Lemma rem360_once x : 360 <= x < 720 -> (Fin x mod Fin 360)%js = Fin (x - 360).
Proof.
  intros H; unfold rem.
  destruct (Req_dec_T 360 0); [lra|].
  unfold Ztrunc; destruct (Rlt_dec (x / 360) 0); [lra|].
  rewrite (Zfloor_eq 1) by (split; lra); f_equal; lra.
Qed.

Lemma while_negative_done fuel a :
  0 <= a -> while_negative fuel (Fin a) = Some (Fin a).
Proof.
  intros H; destruct fuel; simpl; rewrite R_ltb_false by lra; reflexivity.
Qed.

Lemma while_ge_360_done fuel a :
  a < 360 -> while_ge_360 fuel (Fin a) = Some (Fin a).
Proof.
  intros H; destruct fuel; simpl; rewrite R_leb_false by lra; reflexivity.
Qed.

Lemma normalizeAngle_id fuel a :
  0 <= a < 360 -> normalizeAngle fuel (Fin a) = Some (Fin a).
Proof.
  intros [H0 H1]; unfold normalizeAngle.
  rewrite while_negative_done by assumption.
  apply while_ge_360_done; assumption.
Qed.

(** ** Azimuth (C3) *)

Lemma azimuth_raw_range lat lon sat :
  -90 <= lat <= 90 ->
  exists raw,
    azimuth_raw (Fin lat) (Fin lon) (Fin sat) = Fin raw /\
    (0 <= lat -> -90 <= raw <= 90) /\
    (lat < 0 -> 90 <= raw <= 180 \/ -180 < raw <= -90).
Proof.
  intros Hlat; unfold azimuth_raw.
  rewrite sub_Fin, !toRadians_Fin; simpl Math_sin.
  pose proof (Math_tan_not_NaN (rad (sat - lon))) as Hy.
  pose proof PI_RGT_0 as Hpi.
  assert (Hr : - (PI / 2) <= rad lat <= PI / 2).
  { rewrite <- rad_90, <- rad_opp; split; apply rad_le; lra. }
  destruct (Rlt_dec lat 0) as [Hneg|Hpos].
  - assert (Hs : sin (rad lat) < 0).
    { apply sin_lt_0_var; [lra|].
      rewrite <- rad_0; apply rad_lt; assumption. }
    destruct (atan2_south _ _ Hy Hs) as (r & -> & Hrange).
    exists (deg r); split; [apply toDegrees_Fin|].
    split; [intros; lra|intros _].
    destruct Hrange as [[H1 H2]|[H1 H2]].
    + left; rewrite <- deg_PI2, <- deg_PI; split; apply deg_le; assumption.
    + right; apply deg_lt in H1; apply deg_le in H2.
      rewrite deg_opp, deg_PI in H1; rewrite deg_opp, deg_PI2 in H2; lra.
  - assert (Hs : 0 <= sin (rad lat)).
    { apply sin_ge_0; [|lra].
      rewrite <- rad_0; apply rad_le; lra. }
    destruct (atan2_north _ _ Hy Hs) as (r & -> & H1 & H2).
    exists (deg r); split; [apply toDegrees_Fin|].
    split; [intros _|intros; lra].
    apply deg_le in H1; apply deg_le in H2.
    rewrite deg_opp, deg_PI2 in H1; rewrite deg_PI2 in H2; lra.
Qed.

Lemma calculateAzimuth_valid fuel lat lon sat :
  -90 <= lat <= 90 ->
  exists raw az,
    azimuth_raw (Fin lat) (Fin lon) (Fin sat) = Fin raw /\
    calculateAzimuth fuel (Fin lat) (Fin lon) (Fin sat) = Some (Fin az) /\
    az = (if Rlt_dec lat 0 then wrap360 raw else wrap360 (180 + raw)) /\
    90 <= az <= 270.
Proof.
  intros Hlat.
  destruct (azimuth_raw_range lat lon sat Hlat) as (raw & Hraw & Hn & Hs).
  exists raw.
  unfold calculateAzimuth; cbv zeta.
  pose proof Hraw as Hraw'; unfold azimuth_raw in Hraw'; rewrite Hraw'.
  change (Fin lat <? Fin 0)%js with (R_ltb lat 0); unfold R_ltb.
  destruct (Rlt_dec lat 0) as [Hneg|Hpos].
  - simpl add.
    destruct (Hs Hneg) as [H|H].
    + exists raw.
      rewrite rem360_once by lra.
      replace (raw + 360 - 360) with raw by lra.
      rewrite normalizeAngle_id by lra.
      rewrite wrap360_id by lra.
      repeat split; trivial; lra.
    + exists (raw + 360).
      rewrite rem360_small by lra.
      rewrite normalizeAngle_id by lra.
      rewrite wrap360_neg by lra.
      repeat split; trivial; lra.
  - simpl add.
    assert (H : -90 <= raw <= 90) by (apply Hn; lra).
    exists (180 + raw).
    rewrite normalizeAngle_id by lra.
    rewrite wrap360_id by lra.
    repeat split; trivial; lra.
Qed.

(** C3: for a valid input [calculateAzimuth] returns, whatever the fuel of
    the normalising loops, the specification's [raw] wrapped into [[0, 360)]
    when the latitude is negative and [180 + raw] wrapped into [[0, 360)]
    otherwise; the result lies in [[0, 360)]. *)
Theorem C3_azimuth_formula :
  forall (fuel : nat) (obsLat obsLon satLon : R),
    valid_input obsLat obsLon satLon ->
    exists raw az,
      azimuth_raw (Fin obsLat) (Fin obsLon) (Fin satLon) = Fin raw /\
      calculateAzimuth fuel (Fin obsLat) (Fin obsLon) (Fin satLon) = Some (Fin az) /\
      az = (if Rlt_dec obsLat 0 then wrap360 raw else wrap360 (180 + raw)) /\
      0 <= az < 360.
Proof.
  intros fuel lat lon sat (Hlat & _ & _).
  destruct (calculateAzimuth_valid fuel lat lon sat Hlat)
    as (raw & az & H1 & H2 & H3 & H4).
  exists raw, az; repeat split; trivial; lra.
Qed.

Lemma C3_azimuth_formula_witness :
  exists raw az,
    azimuth_raw (Fin 25) (Fin 55) (Fin 13) = Fin raw /\
    calculateAzimuth 0 (Fin 25) (Fin 55) (Fin 13) = Some (Fin az) /\
    az = (if Rlt_dec 25 0 then wrap360 raw else wrap360 (180 + raw)) /\
    0 <= az < 360.
Proof.
  apply (C3_azimuth_formula 0 25 55 13).
  unfold valid_input; lra.
Defined.

(** ** Evaluation of [calculateLNBTilt] *)

Lemma calculateLNBTilt_Fin lat lon sat :
  calculateLNBTilt (Fin lat) (Fin lon) (Fin sat)
  = toDegrees (Math_atan (Fin (sin (rad (sat - lon))) / Math_tan (Fin (rad lat)))%js).
Proof.
  unfold calculateLNBTilt; cbv zeta.
  rewrite sub_Fin, !toRadians_Fin; reflexivity.
Qed.

Lemma Math_tan_0 : Math_tan (Fin (rad 0)) = Fin 0.
Proof.
  rewrite rad_0; unfold Math_tan.
  destruct (Req_dec_T (cos 0) 0) as [H|_]; [rewrite cos_0 in H; lra|].
  rewrite tan_0; reflexivity.
Qed.


(** On the equator the quotient has a zero denominator: the tilt is 90 or -90
    degrees by the sign of [sin dLambda], and [NaN] when that sine is zero. *)
Lemma tilt_equator lon sat :
  calculateLNBTilt (Fin 0) (Fin lon) (Fin sat)
  = if Rlt_dec 0 (sin (rad (sat - lon))) then Fin 90
    else if Rlt_dec (sin (rad (sat - lon))) 0 then Fin (-90)
    else NaN.
Proof.
  rewrite calculateLNBTilt_Fin, Math_tan_0.
  unfold div; destruct (Req_dec_T 0 0) as [_|H]; [|lra].
  unfold signed.
  destruct (Rlt_dec 0 (sin (rad (sat - lon)))).
  { simpl Math_atan; rewrite toDegrees_Fin, deg_PI2; reflexivity. }
  destruct (Rlt_dec (sin (rad (sat - lon))) 0).
  { simpl Math_atan; rewrite toDegrees_Fin, deg_opp, deg_PI2; reflexivity. }
  reflexivity.
Qed.



(** ** Rounding of bounded values *)

Lemma round_value v (n : Z) :
  IZR n <= v * 10 + / 2 < IZR n + 1 -> round (Fin v) 1 = Fin (IZR n / 10).
Proof.
  intros H; rewrite round_Fin; unfold round_half_up.
  rewrite (Zfloor_eq n) by assumption; reflexivity.
Qed.

Lemma round_between v (lo hi : Z) :
  IZR lo <= v <= IZR hi ->
  exists r, round (Fin v) 1 = Fin r /\ IZR lo <= r <= IZR hi.
Proof.
  intros [Hlo Hhi]; rewrite round_Fin; unfold round_half_up.
  eexists; split; [reflexivity|].
  pose proof (Zfloor_bound (v * 10 + / 2)) as [Hf _].
  assert (H1 : (10 * lo <= Zfloor (v * 10 + / 2))%Z).
  { apply Zfloor_lub; rewrite mult_IZR; lra. }
  assert (H2 : (Zfloor (v * 10 + / 2) < 10 * hi + 1)%Z).
  { apply lt_IZR; rewrite plus_IZR, mult_IZR; lra. }
  apply IZR_le in H1.
  assert (H3 : (Zfloor (v * 10 + / 2) <= 10 * hi)%Z) by lia.
  apply IZR_le in H3.
  rewrite mult_IZR in H1, H3; lra.
Qed.

Lemma round_positive v r : round (Fin v) 1 = Fin r -> 0 < r -> 0 < v.
Proof.
  rewrite round_Fin; unfold round_half_up; intros H Hr.
  injection H as <-.
  pose proof (Zfloor_bound (v * 10 + / 2)) as [Hf _].
  assert (Hz : (0 < Zfloor (v * 10 + / 2))%Z).
  { apply lt_IZR.
    apply Rmult_lt_reg_r with (/ 10); [lra|].
    unfold Rdiv in Hr; lra. }
  assert (H1 : (1 <= Zfloor (v * 10 + / 2))%Z) by lia.
  apply IZR_le in H1; lra.
Qed.

(** ** [calculateAll] on a valid input *)

Lemma calculateAll_valid fuel lat lon sat :
  -90 <= lat <= 90 ->
  exists az e,
    calculateAzimuth fuel (Fin lat) (Fin lon) (Fin sat) = Some (Fin az) /\
    90 <= az <= 270 /\
    calculateElevation (Fin lat) (Fin lon) (Fin sat) = Fin e /\
    -90 <= e <= 90 /\
    calculateAll fuel (Fin lat) (Fin lon) (Fin sat)
    = Some {| azimuth := round (Fin az) 1;
              elevation := round (Fin e) 1;
              lnbTilt := round (calculateLNBTilt (Fin lat) (Fin lon) (Fin sat)) 1;
              isVisible := R_ltb 0 e;
              signalQuality := signalQuality_of (Fin e) |}.
Proof.
  intros Hlat.
  destruct (calculateAzimuth_valid fuel lat lon sat Hlat)
    as (raw & az & _ & Haz & _ & Hrange).
  destruct (elevation_finite _ (cosGamma_of_bounds lat lon sat)) as (e & He & Hb).
  rewrite <- calculateElevation_Fin in He.
  exists az, e; repeat split; try assumption; try lra.
  unfold calculateAll; rewrite Haz, He; reflexivity.
Qed.

Lemma signalQuality_monotone e1 e2 :
  e1 <= e2 ->
  (quality_rank (signalQuality_of (Fin e1))
   <= quality_rank (signalQuality_of (Fin e2)))%nat.
Proof.
  intros H; rewrite !signalQuality_of_Fin; unfold R_ltb.
  repeat match goal with
         | |- context [Rlt_dec ?a ?b] => destruct (Rlt_dec a b)
         end; simpl; try lia; lra.
Qed.

Lemma signalQuality_none_iff e :
  signalQuality_of (Fin e) = none <-> R_ltb 0 e = false.
Proof.
  rewrite signalQuality_of_Fin; unfold R_ltb.
  repeat match goal with
         | |- context [Rlt_dec ?a ?b] => destruct (Rlt_dec a b)
         end; split; intros H; try discriminate; try reflexivity; lra.
Qed.

(** ** The sub-satellite point (C5) and the unguarded degeneracies (C2) *)

Lemma azimuth_raw_origin : azimuth_raw (Fin 0) (Fin 0) (Fin 0) = Fin 0.
Proof.
  unfold azimuth_raw; rewrite sub_Fin, !toRadians_Fin.
  replace (0 - 0) with 0 by lra.
  rewrite Math_tan_0; simpl Math_sin; rewrite rad_0, sin_0.
  unfold Math_atan2.
  destruct (Rlt_dec 0 0); [lra|].
  rewrite toDegrees_Fin, deg_0; reflexivity.
Qed.

Lemma calculateAzimuth_origin fuel :
  calculateAzimuth fuel (Fin 0) (Fin 0) (Fin 0) = Some (Fin 180).
Proof.
  destruct (calculateAzimuth_valid fuel 0 0 0) as (raw & az & Hraw & Haz & Heq & _);
    [lra|].
  rewrite azimuth_raw_origin in Hraw; injection Hraw as <-.
  destruct (Rlt_dec 0 0); [lra|].
  rewrite wrap360_id in Heq by lra.
  rewrite Haz, Heq; do 2 f_equal; lra.
Qed.

Lemma cosGamma_origin : cosGamma_of 0 0 0 = 1.
Proof.
  unfold cosGamma_of; replace (0 - 0) with 0 by lra.
  rewrite rad_0, cos_0; lra.
Qed.

Lemma calculateElevation_origin :
  calculateElevation (Fin 0) (Fin 0) (Fin 0) = Fin 90.
Proof. rewrite calculateElevation_Fin, cosGamma_origin; apply elevation_zenith. Qed.

Lemma calculateLNBTilt_origin :
  calculateLNBTilt (Fin 0) (Fin 0) (Fin 0) = NaN.
Proof.
  rewrite tilt_equator; replace (0 - 0) with 0 by lra.
  rewrite rad_0, sin_0.
  destruct (Rlt_dec 0 0); [lra | reflexivity].
Qed.

Lemma calculateDistance_origin :
  calculateDistance (Fin 0) (Fin 0) (Fin 0) = Fin 35786.
Proof.
  rewrite calculateDistance_Fin, cosGamma_origin.
  replace (R_e * R_e + R_g * R_g - 2 * R_e * R_g * 1) with (35786 * 35786)
    by (unfold R_e, R_g; ring).
  rewrite sqrt_square by lra.
  rewrite (Zfloor_eq 35786) by (split; lra); reflexivity.
Qed.

Lemma calculateAll_origin fuel :
  calculateAll fuel (Fin 0) (Fin 0) (Fin 0)
  = Some {| azimuth := Fin 180; elevation := Fin 90; lnbTilt := NaN;
            isVisible := true; signalQuality := excellent |}.
Proof.
  unfold calculateAll.
  rewrite calculateAzimuth_origin, calculateElevation_origin, calculateLNBTilt_origin.
  rewrite round_NaN.
  rewrite (round_value 180 1800) by (split; lra).
  rewrite (round_value 90 900) by (split; lra).
  rewrite gt_Fin, R_ltb_true by lra.
  rewrite signalQuality_of_Fin, R_ltb_true by lra.
  do 2 f_equal; f_equal; lra.
Qed.

(** C5 as stated fails: at the sub-satellite point the tilt field is [NaN]. *)
Lemma C5_origin_tilt_counterexample :
  exists p, calculateAll 0 (Fin 0) (Fin 0) (Fin 0) = Some p /\ is_NaN (lnbTilt p).
Proof. eexists; split; [apply calculateAll_origin | exact I]. Qed.

(** C5, amended: at observer (0, 0) and satellite longitude 0 the elevation
    is 90 degrees, the distance is exactly 35786 km and the azimuth field is
    180, not [NaN]; the tilt field is [NaN], the quotient [0 / 0] being
    computed without a guard. *)
Theorem C5_sub_satellite_point :
  forall fuel : nat,
    calculateElevation (Fin 0) (Fin 0) (Fin 0) = Fin 90 /\
    calculateDistance (Fin 0) (Fin 0) (Fin 0) = Fin 35786 /\
    calculateAll fuel (Fin 0) (Fin 0) (Fin 0)
    = Some {| azimuth := Fin 180; elevation := Fin 90; lnbTilt := NaN;
              isVisible := true; signalQuality := excellent |}.
Proof.
  intros fuel; split; [apply calculateElevation_origin|].
  split; [apply calculateDistance_origin | apply calculateAll_origin].
Qed.





(** ** The invariant of the returned record (C1) *)

(** C1, amended: on every valid input the azimuth field lies in [[0, 360)];
    [isVisible] holds exactly when the elevation before rounding is
    positive, and it holds whenever the rounded elevation field is positive;
    [signalQuality] is [none] exactly when the satellite is not visible, and
    it is the monotone step function of the elevation before rounding. *)
Theorem C1_solution_invariant :
  forall (fuel : nat) (obsLat obsLon satLon : R),
    valid_input obsLat obsLon satLon ->
    exists p e,
      calculateAll fuel (Fin obsLat) (Fin obsLon) (Fin satLon) = Some p /\
      calculateElevation (Fin obsLat) (Fin obsLon) (Fin satLon) = Fin e /\
      (exists a, azimuth p = Fin a /\ 0 <= a < 360) /\
      (isVisible p = true <-> 0 < e) /\
      (forall r, elevation p = Fin r -> 0 < r -> isVisible p = true) /\
      (signalQuality p = none <-> isVisible p = false) /\
      signalQuality p = signalQuality_of (Fin e) /\
      (forall e1 e2 : R,
          e1 <= e2 ->
          (quality_rank (signalQuality_of (Fin e1))
           <= quality_rank (signalQuality_of (Fin e2)))%nat).
Proof.
  intros fuel lat lon sat (Hlat & _ & _).
  destruct (calculateAll_valid fuel lat lon sat Hlat)
    as (az & e & _ & Haz & He & _ & Hall).
  eexists; exists e; split; [exact Hall|]; simpl.
  split; [exact He|].
  split.
  { destruct (round_between az 90 270 Haz) as (a & -> & Ha).
    exists a; split; [reflexivity | lra]. }
  split; [apply R_ltb_spec|].
  split.
  { intros r Hr Hpos; apply R_ltb_true; eapply round_positive; eassumption. }
  split; [apply signalQuality_none_iff|].
  split; [reflexivity|].
  apply signalQuality_monotone.
Qed.

Lemma C1_solution_invariant_witness :
  exists p e,
    calculateAll 0 (Fin 0) (Fin 0) (Fin 0) = Some p /\
    calculateElevation (Fin 0) (Fin 0) (Fin 0) = Fin e /\
    (exists a, azimuth p = Fin a /\ 0 <= a < 360) /\
    (isVisible p = true <-> 0 < e) /\
    (forall r, elevation p = Fin r -> 0 < r -> isVisible p = true) /\
    (signalQuality p = none <-> isVisible p = false) /\
    signalQuality p = signalQuality_of (Fin e) /\
    (forall e1 e2 : R,
        e1 <= e2 ->
        (quality_rank (signalQuality_of (Fin e1))
         <= quality_rank (signalQuality_of (Fin e2)))%nat).
Proof.
  apply (C1_solution_invariant 0 0 0 0).
  unfold valid_input; lra.
Defined.

(** ** Numerical enclosures

    The two concrete scenarios need the values of sines, cosines and
    arctangents at given angles.  They are enclosed between rationals: [PI]
    by the Machin-like series of the standard library, sine and cosine by
    partial sums of their alternating series, the arctangent by the
    monotonicity of the tangent. *)

Lemma IZR_zp z k : IZR (zp z k) = IZR z ^ k.
Proof. unfold zp; symmetry; apply pow_IZR. Qed.

Ltac push_IZR :=
  repeat (rewrite minus_IZR || rewrite plus_IZR || rewrite mult_IZR
          || rewrite IZR_zp).

Lemma scaled_le_l M P K S :
  0 < K -> 0 < S -> M * K <= P * (K * S) -> M / S <= P.
Proof.
  intros HK HS H.
  apply Rmult_le_reg_r with (K * S); [apply Rmult_lt_0_compat; assumption|].
  replace (M / S * (K * S)) with (M * K) by (field; lra); exact H.
Qed.

Lemma scaled_le_r M P K S :
  0 < K -> 0 < S -> P * (K * S) <= M * K -> P <= M / S.
Proof.
  intros HK HS H.
  apply Rmult_le_reg_r with (K * S); [apply Rmult_lt_0_compat; assumption|].
  replace (M / S * (K * S)) with (M * K) by (field; lra); exact H.
Qed.

Lemma sin_lo_check s n m :
  sin_lo_ok s n m = true -> IZR m / IZR s <= sin_lo (IZR n / IZR s).
Proof.
  unfold sin_lo_ok; intros H; apply andb_prop in H as [Hs H].
  apply Z.ltb_lt, IZR_lt in Hs; apply Z.leb_le, IZR_le in H.
  apply scaled_le_l with (K := 1307674368000 * IZR s ^ 14); trivial.
  { apply Rmult_lt_0_compat; [lra | apply pow_lt; assumption]. }
  revert H; unfold sin_lo_Z, sin_lo; push_IZR; intros H.
  eapply Rle_trans; [exact H|]; right; field; lra.
Qed.

Lemma sin_hi_check s n m :
  sin_hi_ok s n m = true -> sin_hi (IZR n / IZR s) <= IZR m / IZR s.
Proof.
  unfold sin_hi_ok; intros H; apply andb_prop in H as [Hs H].
  apply Z.ltb_lt, IZR_lt in Hs; apply Z.leb_le, IZR_le in H.
  apply scaled_le_r with (K := 6227020800 * IZR s ^ 12); trivial.
  { apply Rmult_lt_0_compat; [lra | apply pow_lt; assumption]. }
  revert H; unfold sin_hi_Z, sin_hi; push_IZR; intros H.
  eapply Rle_trans; [|exact H]; right; field; lra.
Qed.

Lemma cos_lo_check s n m :
  cos_lo_ok s n m = true -> IZR m / IZR s <= cos_lo (IZR n / IZR s).
Proof.
  unfold cos_lo_ok; intros H; apply andb_prop in H as [Hs H].
  apply Z.ltb_lt, IZR_lt in Hs; apply Z.leb_le, IZR_le in H.
  apply scaled_le_l with (K := 87178291200 * IZR s ^ 13); trivial.
  { apply Rmult_lt_0_compat; [lra | apply pow_lt; assumption]. }
  revert H; unfold cos_lo_Z, cos_lo; push_IZR; intros H.
  eapply Rle_trans; [exact H|]; right; field; lra.
Qed.

Lemma cos_hi_check s n m :
  cos_hi_ok s n m = true -> cos_hi (IZR n / IZR s) <= IZR m / IZR s.
Proof.
  unfold cos_hi_ok; intros H; apply andb_prop in H as [Hs H].
  apply Z.ltb_lt, IZR_lt in Hs; apply Z.leb_le, IZR_le in H.
  apply scaled_le_r with (K := 479001600 * IZR s ^ 11); trivial.
  { apply Rmult_lt_0_compat; [lra | apply pow_lt; assumption]. }
  revert H; unfold cos_hi_Z, cos_hi; push_IZR; intros H.
  eapply Rle_trans; [|exact H]; right; field; lra.
Qed.

Lemma PI_bounds : 3.14159265 < PI < 3.14159266.
Proof.
  pose proof (PI_2_3_7_ineq 5) as [Hlo Hhi].
  unfold sum_f_R0, tg_alt, PI_2_3_7_tg, Ratan_seq in Hlo, Hhi.
  simpl in Hlo, Hhi.
  split; lra.
Qed.

Lemma INR_fact_S n : INR (fact (S n)) = INR (S n) * INR (fact n).
Proof. rewrite fact_simpl, mult_INR; reflexivity. Qed.

Ltac expand_series H :=
  cbn [sum_f_R0 Nat.mul Nat.add] in H;
  rewrite !INR_fact_S in H;
  change (INR (fact 0)) with 1 in H;
  cbn [INR pow] in H.

Lemma sin_taylor x : 0 <= x <= PI -> sin_lo x <= sin x <= sin_hi x.
Proof.
  intros [H0 H1].
  pose proof (sin_bound x 3 H0 H1) as [Hlo _].
  pose proof (sin_bound x 2 H0 H1) as [_ Hhi].
  unfold sin_approx, sin_term in Hlo, Hhi.
  expand_series Hlo; expand_series Hhi.
  unfold sin_lo, sin_hi; split; lra.
Qed.

Lemma cos_taylor x : - PI / 2 <= x <= PI / 2 -> cos_lo x <= cos x <= cos_hi x.
Proof.
  intros [H0 H1].
  pose proof (cos_bound x 3 H0 H1) as [Hlo _].
  pose proof (cos_bound x 2 H0 H1) as [_ Hhi].
  unfold cos_approx, cos_term in Hlo, Hhi.
  expand_series Hlo; expand_series Hhi.
  unfold cos_lo, cos_hi; split; lra.
Qed.

Lemma rad_enclosure d :
  0 <= d -> d * 3.14159265 / 180 <= rad d <= d * 3.14159266 / 180.
Proof. intros Hd; unfold rad; pose proof PI_bounds; split; nra. Qed.

Lemma sin_deg_between (s na nb ml mh : Z) d l h :
  0 <= d ->
  0 <= IZR na / IZR s <= d * 3.14159265 / 180 ->
  d * 3.14159266 / 180 <= IZR nb / IZR s <= 3 / 2 ->
  l <= IZR ml / IZR s -> IZR mh / IZR s <= h ->
  sin_lo_ok s na ml = true -> sin_hi_ok s nb mh = true ->
  l <= sin (rad d) <= h.
Proof.
  intros Hd Ha Hb Hl Hh Hlo Hhi; pose proof PI_bounds as [Hp1 Hp2].
  pose proof (rad_enclosure d Hd) as [Hr1 Hr2].
  apply sin_lo_check in Hlo; apply sin_hi_check in Hhi.
  pose proof (sin_taylor (IZR na / IZR s)) as [Hs1 _]; [lra|].
  pose proof (sin_taylor (IZR nb / IZR s)) as [_ Hs2]; [lra|].
  assert (sin (IZR na / IZR s) <= sin (rad d)) by (apply sin_incr_1; lra).
  assert (sin (rad d) <= sin (IZR nb / IZR s)) by (apply sin_incr_1; lra).
  lra.
Qed.

Lemma cos_deg_between (s na nb ml mh : Z) d l h :
  0 <= d ->
  0 <= IZR na / IZR s <= d * 3.14159265 / 180 ->
  d * 3.14159266 / 180 <= IZR nb / IZR s <= 3 / 2 ->
  l <= IZR ml / IZR s -> IZR mh / IZR s <= h ->
  cos_lo_ok s nb ml = true -> cos_hi_ok s na mh = true ->
  l <= cos (rad d) <= h.
Proof.
  intros Hd Ha Hb Hl Hh Hlo Hhi; pose proof PI_bounds as [Hp1 Hp2].
  pose proof (rad_enclosure d Hd) as [Hr1 Hr2].
  apply cos_lo_check in Hlo; apply cos_hi_check in Hhi.
  pose proof (cos_taylor (IZR na / IZR s)) as [_ Hs2]; [lra|].
  pose proof (cos_taylor (IZR nb / IZR s)) as [Hs1 _]; [lra|].
  assert (cos (rad d) <= cos (IZR na / IZR s)) by (apply cos_decr_1; lra).
  assert (cos (IZR nb / IZR s) <= cos (rad d)) by (apply cos_decr_1; lra).
  lra.
Qed.

Ltac enclose_sin na nb ml mh :=
  apply (sin_deg_between 1000000000 na nb ml mh);
  [lra | lra | lra | lra | lra | vm_compute; reflexivity | vm_compute; reflexivity].
Ltac enclose_cos na nb ml mh :=
  apply (cos_deg_between 1000000000 na nb ml mh);
  [lra | lra | lra | lra | lra | vm_compute; reflexivity | vm_compute; reflexivity].

Lemma mul_between u v ul uh vl vh l h :
  0 <= ul -> ul <= u <= uh -> 0 <= vl -> vl <= v <= vh ->
  l <= ul * vl -> uh * vh <= h -> l <= u * v <= h.
Proof. intros; split; nra. Qed.

Lemma div_between n d nl nh dl dh l h :
  0 <= nl -> nl <= n <= nh -> 0 < dl -> dl <= d <= dh ->
  l <= nl / dh -> nh / dl <= h -> l <= n / d <= h.
Proof.
  intros Hnl [Hn1 Hn2] Hdl [Hd1 Hd2] Hl Hh.
  assert (Hd : 0 < d) by lra.
  assert (Hdh : 0 < dh) by lra.
  assert (H1 : / dh <= / d) by (apply Rinv_le_contravar; lra).
  assert (H2 : / d <= / dl) by (apply Rinv_le_contravar; lra).
  assert (H3 : 0 < / dh) by (apply Rinv_0_lt_compat; lra).
  unfold Rdiv in *; split; nra.
Qed.

Lemma sqrt_between y l h :
  0 <= l -> 0 <= h -> l * l <= y <= h * h -> l <= sqrt y <= h.
Proof.
  intros Hl Hh [H1 H2]; split; [apply sqrt_lower | apply sqrt_upper]; assumption.
Qed.

(** The angle, in degrees, of an arctangent, read off the tangents of two
    angles that enclose it. *)
Lemma atan_deg_between q lo hi sl sh cl ch :
  0 <= lo <= 85 -> 0 <= hi <= 85 ->
  sin (rad lo) <= sl -> 0 < cl <= cos (rad lo) ->
  0 <= sh <= sin (rad hi) -> 0 < cos (rad hi) <= ch ->
  sl / cl < q -> q < sh / ch ->
  lo < deg (atan q) < hi.
Proof.
  intros Hlo Hhi Hsl Hcl Hsh Hch Hq1 Hq2.
  pose proof PI_bounds as [Hp1 Hp2].
  assert (Hr : forall d, 0 <= d <= 85 -> 0 <= rad d < PI / 2).
  { intros d Hd; pose proof (rad_enclosure d (proj1 Hd)); lra. }
  pose proof (Hr lo Hlo) as Hrlo; pose proof (Hr hi Hhi) as Hrhi.
  assert (Hslo : 0 <= sin (rad lo)) by (apply sin_ge_0; lra).
  assert (Ht1 : tan (rad lo) < q).
  { apply Rle_lt_trans with (2 := Hq1); unfold tan.
    apply Rle_trans with (sin (rad lo) / cl).
    - apply Rmult_le_compat_l; [assumption|].
      apply Rinv_le_contravar; lra.
    - apply Rmult_le_compat_r; [left; apply Rinv_0_lt_compat|]; lra. }
  assert (Ht2 : q < tan (rad hi)).
  { apply Rlt_le_trans with (1 := Hq2); unfold tan.
    apply Rle_trans with (sh / cos (rad hi)).
    - apply Rmult_le_compat_l; [lra|].
      apply Rinv_le_contravar; lra.
    - apply Rmult_le_compat_r; [left; apply Rinv_0_lt_compat|]; lra. }
  apply atan_increasing in Ht1; apply atan_increasing in Ht2.
  rewrite atan_tan in Ht1 by lra.
  rewrite atan_tan in Ht2 by lra.
  apply deg_lt in Ht1; apply deg_lt in Ht2.
  rewrite deg_rad in Ht1, Ht2; lra.
Qed.

Lemma sin_25 : 0.4226182 <= sin (rad 25) <= 0.4226183.
Proof. enclose_sin 436332312%Z 436332314%Z 422618260%Z 422618263%Z. Qed.

Lemma cos_25 : 0.9063077 <= cos (rad 25) <= 0.9063078.
Proof. enclose_cos 436332312%Z 436332314%Z 906307786%Z 906307788%Z. Qed.

Lemma sin_42 : 0.6691306 <= sin (rad 42) <= 0.6691307.
Proof. enclose_sin 733038285%Z 733038288%Z 669130605%Z 669130608%Z. Qed.

Lemma cos_42 : 0.7431448 <= cos (rad 42) <= 0.7431449.
Proof. enclose_cos 733038285%Z 733038288%Z 743144824%Z 743144827%Z. Qed.

Lemma sin_64_85 : 0.9051982 <= sin (rad 64.85) <= 0.9051983.
Proof. enclose_sin 1131846018%Z 1131846023%Z 905198269%Z 905198272%Z. Qed.

Lemma cos_64_85 : 0.4249895 <= cos (rad 64.85) <= 0.4249896.
Proof. enclose_cos 1131846018%Z 1131846023%Z 424989516%Z 424989521%Z. Qed.

Lemma sin_64_95 : 0.9059386 <= sin (rad 64.95) <= 0.9059387.
Proof. enclose_sin 1133591347%Z 1133591352%Z 905938637%Z 905938640%Z. Qed.

Lemma cos_64_95 : 0.423409 <= cos (rad 64.95) <= 0.4234091.
Proof. enclose_cos 1133591347%Z 1133591352%Z 423409000%Z 423409006%Z. Qed.

Lemma sin_35_15 : 0.575719 <= sin (rad 35.15) <= 0.5757191.
Proof. enclose_sin 613483231%Z 613483234%Z 575719002%Z 575719005%Z. Qed.

Lemma cos_35_15 : 0.8176476 <= cos (rad 35.15) <= 0.8176477.
Proof. enclose_cos 613483231%Z 613483234%Z 817647618%Z 817647620%Z. Qed.

Lemma sin_35_25 : 0.5771451 <= sin (rad 35.25) <= 0.5771452.
Proof. enclose_sin 615228560%Z 615228563%Z 577145188%Z 577145192%Z. Qed.

Lemma cos_35_25 : 0.8166415 <= cos (rad 35.25) <= 0.8166416.
Proof. enclose_cos 615228560%Z 615228563%Z 816641554%Z 816641556%Z. Qed.

Lemma sin_55_05 : 0.8196522 <= sin (rad 55.05) <= 0.8196523.
Proof. enclose_sin 960803752%Z 960803756%Z 819652271%Z 819652274%Z. Qed.

Lemma cos_55_05 : 0.5728613 <= cos (rad 55.05) <= 0.5728614.
Proof. enclose_cos 960803752%Z 960803756%Z 572861370%Z 572861375%Z. Qed.

Lemma sin_55_15 : 0.8206508 <= sin (rad 55.15) <= 0.8206509.
Proof. enclose_sin 962549081%Z 962549085%Z 820650854%Z 820650857%Z. Qed.

Lemma cos_55_15 : 0.5714299 <= cos (rad 55.15) <= 0.57143.
Proof. enclose_cos 962549081%Z 962549085%Z 571429936%Z 571429940%Z. Qed.

Lemma cos_81_27 : 0.1517783 <= cos (rad 81.27) <= 0.1517784.
Proof. enclose_cos 1418429081%Z 1418429086%Z 151778370%Z 151778378%Z. Qed.

Lemma sin_0_05 : 0.0008726 <= sin (rad 0.05) <= 0.0008727.
Proof. enclose_sin 872664%Z 872665%Z 872663%Z 872665%Z. Qed.

Lemma cos_0_05 : 0.9999996 <= cos (rad 0.05) <= 0.9999997.
Proof. enclose_cos 872664%Z 872665%Z 999999619%Z 999999620%Z. Qed.

Lemma horizon_value : 0.1512692 <= R_e / R_g <= 0.1512693.
Proof.
  unfold R_e, R_g.
  assert (H : 0 < 6378.137 + 35786) by lra.
  split.
  - apply Rmult_le_reg_r with (6378.137 + 35786); [assumption|].
    unfold Rdiv; rewrite Rmult_assoc, Rinv_l; lra.
  - apply Rmult_le_reg_r with (6378.137 + 35786); [assumption|].
    unfold Rdiv; rewrite Rmult_assoc, Rinv_l; lra.
Qed.

(** ** Dubai aiming at Hotbird (C4): observer (25, 55), satellite 13 *)

Lemma dubai_lonDiff : rad (13 - 55) = - rad 42.
Proof. unfold rad; lra. Qed.

Lemma dubai_cosGamma : cosGamma_of 25 55 13 = cos (rad 25) * cos (rad 42).
Proof. unfold cosGamma_of; rewrite dubai_lonDiff, cos_neg; reflexivity. Qed.

Lemma dubai_cosGamma_value : 0.6735178 <= cosGamma_of 25 55 13 <= 0.6735181.
Proof.
  rewrite dubai_cosGamma.
  pose proof cos_25; pose proof cos_42.
  apply mul_between with (ul := 0.9063077) (uh := 0.9063078)
                         (vl := 0.7431448) (vh := 0.7431449); lra.
Qed.

Lemma dubai_elevation :
  exists e, calculateElevation (Fin 25) (Fin 55) (Fin 13) = Fin e /\ 35.15 < e < 35.25.
Proof.
  rewrite calculateElevation_Fin.
  pose proof dubai_cosGamma_value as Hc.
  set (c := cosGamma_of 25 55 13) in *.
  rewrite elevation_inner by lra.
  eexists; split; [reflexivity|].
  pose proof horizon_value as Hk.
  assert (Hs : 0.7391706 <= sqrt (1 - c * c) <= 0.7391712).
  { apply sqrt_between; [lra | lra | split; nra]. }
  assert (Hg : 0.7065325 <= (c - R_e / R_g) / sqrt (1 - c * c) <= 0.7065337).
  { apply div_between with (nl := 0.5222485) (nh := 0.5222489)
                           (dl := 0.7391706) (dh := 0.7391712); lra. }
  pose proof sin_35_15; pose proof cos_35_15; pose proof sin_35_25; pose proof cos_35_25.
  apply atan_deg_between with (sl := 0.5757191) (cl := 0.8176476)
                              (sh := 0.5771451) (ch := 0.8166416); lra.
Qed.

Lemma dubai_azimuth fuel :
  exists az,
    calculateAzimuth fuel (Fin 25) (Fin 55) (Fin 13) = Some (Fin az) /\
    115.05 < az < 115.15.
Proof.
  destruct (calculateAzimuth_valid fuel 25 55 13) as (raw & az & Hraw & Haz & Heq & Hr);
    [lra|].
  exists az; split; [assumption|].
  destruct (Rlt_dec 25 0); [lra|].
  pose proof sin_25 as Hs25; pose proof sin_42 as Hs42; pose proof cos_42 as Hc42.
  assert (Hval : azimuth_raw (Fin 25) (Fin 55) (Fin 13)
                 = Fin (- deg (atan (sin (rad 42) / cos (rad 42) / sin (rad 25))))).
  { unfold azimuth_raw; rewrite sub_Fin, !toRadians_Fin, dubai_lonDiff.
    unfold Math_tan; rewrite cos_neg.
    destruct (Req_dec_T (cos (rad 42)) 0); [lra|].
    rewrite tan_neg; simpl Math_sin; unfold Math_atan2.
    destruct (Rlt_dec 0 (sin (rad 25))); [|lra].
    rewrite toDegrees_Fin; f_equal.
    rewrite <- deg_opp, <- atan_opp; do 2 f_equal.
    unfold tan; field; lra. }
  rewrite Hval in Hraw; injection Hraw as <-.
  assert (Hq : 2.1305369 <= sin (rad 42) / cos (rad 42) / sin (rad 25) <= 2.1305384).
  { apply div_between with (nl := 0.9004039) (nh := 0.9004043)
                           (dl := 0.4226182) (dh := 0.4226183); try lra.
    apply div_between with (nl := 0.6691306) (nh := 0.6691307)
                           (dl := 0.7431448) (dh := 0.7431449); lra. }
  pose proof sin_64_85; pose proof cos_64_85; pose proof sin_64_95; pose proof cos_64_95.
  assert (Ha : 64.85 < deg (atan (sin (rad 42) / cos (rad 42) / sin (rad 25))) < 64.95).
  { apply atan_deg_between with (sl := 0.9051983) (cl := 0.4249895)
                                (sh := 0.9059386) (ch := 0.4234091); lra. }
  rewrite wrap360_id in Heq by lra.
  lra.
Qed.

Lemma dubai_tilt :
  exists t, calculateLNBTilt (Fin 25) (Fin 55) (Fin 13) = Fin t /\ -55.15 < t < -55.05.
Proof.
  pose proof sin_25 as Hs25; pose proof cos_25 as Hc25; pose proof sin_42 as Hs42.
  exists (- deg (atan (sin (rad 42) / (sin (rad 25) / cos (rad 25))))).
  assert (Ht : 0.4663075 <= sin (rad 25) / cos (rad 25) <= 0.4663078).
  { apply div_between with (nl := 0.4226182) (nh := 0.4226183)
                           (dl := 0.9063077) (dh := 0.9063078); lra. }
  split.
  - rewrite calculateLNBTilt_Fin, dubai_lonDiff, sin_neg.
    unfold Math_tan.
    destruct (Req_dec_T (cos (rad 25)) 0); [lra|].
    unfold tan; rewrite div_Fin by lra.
    simpl Math_atan; rewrite toDegrees_Fin; f_equal.
    rewrite <- deg_opp, <- atan_opp; do 2 f_equal.
    field; lra.
  - assert (Hq : 1.4349547 <= sin (rad 42) / (sin (rad 25) / cos (rad 25)) <= 1.434956).
    { apply div_between with (nl := 0.6691306) (nh := 0.6691307)
                             (dl := 0.4663075) (dh := 0.4663078); lra. }
    pose proof sin_55_05; pose proof cos_55_05; pose proof sin_55_15; pose proof cos_55_15.
    assert (Ha : 55.05 < deg (atan (sin (rad 42) / (sin (rad 25) / cos (rad 25)))) < 55.15).
    { apply atan_deg_between with (sl := 0.8196523) (cl := 0.5728613)
                                  (sh := 0.8206508) (ch := 0.57143); lra. }
    lra.
Qed.

Lemma dubai_distance :
  calculateDistance (Fin 25) (Fin 55) (Fin 13) = Fin 38161.
Proof.
  rewrite calculateDistance_Fin.
  pose proof dubai_cosGamma_value as Hc.
  set (c := cosGamma_of 25 55 13) in *.
  assert (Hd : 38160.6 <= sqrt (R_e * R_e + R_g * R_g - 2 * R_e * R_g * c) <= 38160.8).
  { apply sqrt_between; [lra | lra | unfold R_e, R_g; split; lra]. }
  rewrite (Zfloor_eq 38161) by (split; lra); reflexivity.
Qed.

Lemma dubai_calculateAll fuel :
  calculateAll fuel (Fin 25) (Fin 55) (Fin 13)
  = Some {| azimuth := Fin 115.1; elevation := Fin 35.2; lnbTilt := Fin (-55.1);
            isVisible := true; signalQuality := excellent |}.
Proof.
  destruct (dubai_azimuth fuel) as (az & Haz & Hazr).
  destruct dubai_elevation as (e & He & Her).
  destruct dubai_tilt as (t & Ht & Htr).
  unfold calculateAll; rewrite Haz, He, Ht.
  rewrite (round_value az 1151) by (split; lra).
  rewrite (round_value e 352) by (split; lra).
  rewrite (round_value t (-551)) by (split; lra).
  rewrite gt_Fin, R_ltb_true by lra.
  rewrite signalQuality_of_Fin, R_ltb_true by lra.
  do 2 f_equal; f_equal; lra.
Qed.

(** C4 as stated fails: the azimuth field is 115.1, outside 249-251, and the
    elevation field is 35.2, outside 27-29. *)
Lemma C4_dubai_bands_counterexample :
  calculateAll 0 (Fin 25) (Fin 55) (Fin 13)
  = Some {| azimuth := Fin 115.1; elevation := Fin 35.2; lnbTilt := Fin (-55.1);
            isVisible := true; signalQuality := excellent |} /\
  ~ (249 <= 115.1 <= 251) /\ ~ (27 <= 35.2 <= 29).
Proof.
  split; [apply dubai_calculateAll|].
  split; intros [H1 H2]; lra.
Qed.

(** C4, amended: for observer (25, 55) and satellite longitude 13 the
    elevation field is 35.2 degrees, the satellite is visible with quality
    [excellent], the tilt field is -55.1 degrees, negative, and the distance
    is 38161 km, between 38000 and 39000. *)
Theorem C4_dubai_hotbird :
  forall fuel : nat,
  exists p,
    calculateAll fuel (Fin 25) (Fin 55) (Fin 13) = Some p /\
    elevation p = Fin 35.2 /\
    isVisible p = true /\
    signalQuality p = excellent /\
    lnbTilt p = Fin (-55.1) /\
    calculateDistance (Fin 25) (Fin 55) (Fin 13) = Fin 38161.
Proof.
  intros fuel; eexists; split; [apply dubai_calculateAll|].
  simpl; repeat split; trivial.
  apply dubai_distance.
Qed.

(** ** A satellite just above the horizon (C1): observer (0, 0), satellite 81.27 *)

Lemma low_cosGamma : cosGamma_of 0 0 81.27 = cos (rad 81.27).
Proof.
  unfold cosGamma_of; replace (81.27 - 0) with 81.27 by lra.
  rewrite rad_0, cos_0; lra.
Qed.

Lemma low_elevation :
  exists e, calculateElevation (Fin 0) (Fin 0) (Fin 81.27) = Fin e /\ 0 < e < 0.05.
Proof.
  rewrite calculateElevation_Fin, low_cosGamma.
  pose proof cos_81_27 as Hc.
  set (c := cos (rad 81.27)) in *.
  rewrite elevation_inner by lra.
  eexists; split; [reflexivity|].
  pose proof horizon_value as Hk.
  assert (Hs : 0.9884144 <= sqrt (1 - c * c) <= 0.9884147).
  { apply sqrt_between; [lra | lra | split; nra]. }
  assert (Hg : 0.0005149 <= (c - R_e / R_g) / sqrt (1 - c * c) <= 0.0005152).
  { apply div_between with (nl := 0.000509) (nh := 0.0005092)
                           (dl := 0.9884144) (dh := 0.9884147); lra. }
  pose proof sin_0_05; pose proof cos_0_05.
  apply atan_deg_between with (sl := 0) (cl := 1)
                              (sh := 0.0008726) (ch := 0.9999997);
    rewrite ?rad_0, ?sin_0, ?cos_0; lra.
Qed.

(** C1 as stated fails: on the valid input (0, 0, 81.27) the elevation is
    positive but below 0.05 degrees, so the record is visible while its
    elevation field is 0. *)
Lemma C1_visible_at_zero_elevation_counterexample :
  valid_input 0 0 81.27 /\
  exists p,
    calculateAll 0 (Fin 0) (Fin 0) (Fin 81.27) = Some p /\
    isVisible p = true /\
    elevation p = Fin 0 /\
    (elevation p >? Fin 0)%js = false.
Proof.
  split; [unfold valid_input; lra|].
  destruct (calculateAll_valid 0 0 0 81.27) as (az & e & _ & _ & He & _ & Hall); [lra|].
  destruct low_elevation as (e' & He' & Hr).
  rewrite He' in He; injection He as <-.
  eexists; split; [exact Hall|]; simpl.
  assert (Hround : round (Fin e') 1 = Fin 0).
  { rewrite (round_value e' 0) by (split; lra); f_equal; lra. }
  rewrite Hround.
  split; [apply R_ltb_true; lra|].
  split; [reflexivity|].
  apply R_ltb_false; lra.
Qed.

(** Two observers of the satellite at 13 degrees East: Dubai (25, 55) and the
    sub-satellite point (0, 13). *)
Lemma C7_elevation_decreases_with_separation_witness :
  (separation 0 13 13 < separation 25 55 13
   <-> cosGamma_of 25 55 13 < cosGamma_of 0 13 13) /\
  (cosGamma_of 25 55 13 < cosGamma_of 0 13 13 ->
   exists e1 e2,
     calculateElevation (Fin 25) (Fin 55) (Fin 13) = Fin e1 /\
     calculateElevation (Fin 0) (Fin 13) (Fin 13) = Fin e2 /\
     0 <= e1 < e2) /\
  (cosGamma_of 25 55 13 = R_e / R_g ->
   calculateElevation (Fin 25) (Fin 55) (Fin 13) = Fin 0).
Proof.
  apply (C7_elevation_decreases_with_separation 25 55 0 13 13).
  - pose proof horizon_value; pose proof dubai_cosGamma_value; lra.
  - unfold cosGamma_of; replace (13 - 13) with 0 by lra.
    rewrite rad_0, cos_0; pose proof horizon_ratio; lra.
Defined.

(** ** A common shift that the sums round away (C9) *)

Lemma ln_2_pos : 0 < ln 2.
Proof. pose proof ln_lt_2; lra. Qed.

Lemma ln_powerRZ_2 (e : Z) : ln (powerRZ 2 e) = IZR e * ln 2.
Proof. rewrite powerRZ_Rpower by lra; unfold Rpower; apply ln_exp. Qed.

Lemma binade_eq x (e : Z) :
  (-1022 <= e)%Z -> powerRZ 2 e <= Rabs x < powerRZ 2 (e + 1) -> binade x = e.
Proof.
  intros He [H1 H2]; unfold binade.
  pose proof ln_2_pos as Hln.
  pose proof (powerRZ_lt 2 e ltac:(lra)) as Hp.
  assert (Hlo : IZR e * ln 2 <= ln (Rabs x)).
  { rewrite <- ln_powerRZ_2.
    destruct H1 as [H1|H1]; [left; apply ln_increasing; assumption|].
    rewrite H1; right; reflexivity. }
  assert (Hhi : ln (Rabs x) < (IZR e + 1) * ln 2).
  { rewrite <- plus_IZR, <- ln_powerRZ_2; apply ln_increasing; lra. }
  rewrite (Zfloor_eq e); [lia|].
  split.
  - apply Rmult_le_reg_r with (ln 2); [assumption|].
    unfold Rdiv; rewrite Rmult_assoc, Rinv_l by lra; lra.
  - apply Rmult_lt_reg_r with (ln 2); [assumption|].
    unfold Rdiv; rewrite Rmult_assoc, Rinv_l by lra; lra.
Qed.

Lemma powerRZ_2_nat (n : nat) : powerRZ 2 (Z.of_nat n) = IZR (2 ^ Z.of_nat n).
Proof. rewrite <- pow_powerRZ, pow_IZR; reflexivity. Qed.

(** A number below 128 added to [2^60] is rounded away: the binary64
    numbers from [2^60] to [2^61] are 256 apart. *)
Lemma binary64_absorbed x :
  0 <= x < 128 -> binary64 (x + 1152921504606846976) = Fin 1152921504606846976.
Proof.
  intros Hx.
  assert (P8 : powerRZ 2 8 = 256).
  { change 8%Z with (Z.of_nat 8); rewrite powerRZ_2_nat; reflexivity. }
  assert (P60 : powerRZ 2 60 = 1152921504606846976).
  { change 60%Z with (Z.of_nat 60); rewrite powerRZ_2_nat; reflexivity. }
  assert (P61 : powerRZ 2 61 = 2305843009213693952).
  { change 61%Z with (Z.of_nat 61); rewrite powerRZ_2_nat; reflexivity. }
  assert (Pmax : 1152921504606846976 < powerRZ 2 1024).
  { change 1024%Z with (Z.of_nat 1024); rewrite powerRZ_2_nat.
    apply IZR_lt; reflexivity. }
  assert (Hb : binade (x + 1152921504606846976) = 60%Z).
  { apply binade_eq; [lia|].
    rewrite Rabs_pos_eq by lra.
    change (60 + 1)%Z with 61%Z; rewrite P60, P61; lra. }
  unfold binary64, ulp; rewrite Hb.
  change (60 - 52)%Z with 8%Z; rewrite P8.
  assert (Hf : Zfloor ((x + 1152921504606846976) / 256) = 4503599627370496%Z).
  { apply Zfloor_eq; split; lra. }
  assert (Hr : round_ties_even ((x + 1152921504606846976) / 256)
               = 4503599627370496%Z).
  { unfold round_ties_even; rewrite Hf.
    destruct (Rlt_dec ((x + 1152921504606846976) / 256 - 4503599627370496) (/ 2));
      [reflexivity | lra]. }
  rewrite Hr.
  replace (4503599627370496 * 256) with 1152921504606846976 by lra.
  rewrite Rabs_pos_eq by lra.
  destruct (Rle_dec (powerRZ 2 1024) 1152921504606846976); [lra | reflexivity].
Qed.

Lemma azimuth_same_longitude fuel lat lon :
  0 < lat < 180 ->
  calculateAzimuth fuel (Fin lat) (Fin lon) (Fin lon) = Some (Fin 180).
Proof.
  intros Hlat; unfold calculateAzimuth.
  rewrite sub_Fin; replace (lon - lon) with 0 by lra.
  rewrite !toRadians_Fin, Math_tan_0.
  assert (Hs : 0 < sin (rad lat)).
  { apply sin_gt_0.
    - rewrite <- rad_0; apply rad_lt; lra.
    - rewrite <- rad_180; apply rad_lt; lra. }
  cbn [Math_sin Math_atan2].
  destruct (Rlt_dec 0 (sin (rad lat))); [|lra].
  replace (0 / sin (rad lat)) with 0 by (unfold Rdiv; lra).
  rewrite atan_0, toDegrees_Fin, deg_0.
  change (Fin lat <? Fin 0)%js with (R_ltb lat 0).
  rewrite R_ltb_false by lra.
  change (Fin 180 + Fin 0)%js with (Fin (180 + 0)).
  replace (180 + 0) with 180 by lra.
  apply normalizeAngle_id; lra.
Qed.

(** C9 as stated fails for a shift that the caller's sums round away: with
    the shift [2^60], [55 + 2^60] and [13 + 2^60] are both the binary64
    number [2^60], so the shifted call sees two equal longitudes and answers
    with the azimuth 180, while the azimuth for the longitudes 55 and 13 is
    below 116.  It fails for the shift [Infinity] too: both sums are
    [Infinity], their difference is [NaN], and so is the elevation. *)
Lemma C9_rounded_shift_counterexample :
  add64 (Fin 55) (Fin 1152921504606846976) = Fin 1152921504606846976 /\
  add64 (Fin 13) (Fin 1152921504606846976) = Fin 1152921504606846976 /\
  calculateAzimuth 1 (Fin 25) (add64 (Fin 55) (Fin 1152921504606846976))
                             (add64 (Fin 13) (Fin 1152921504606846976))
  = Some (Fin 180) /\
  (exists az,
     calculateAzimuth 1 (Fin 25) (Fin 55) (Fin 13) = Some (Fin az) /\ az < 116) /\
  calculateElevation (Fin 25) (add64 (Fin 55) PInf) (add64 (Fin 13) PInf) = NaN /\
  (exists e, calculateElevation (Fin 25) (Fin 55) (Fin 13) = Fin e).
Proof.
  assert (H55 : add64 (Fin 55) (Fin 1152921504606846976) = Fin 1152921504606846976).
  { unfold add64; cbn [add]; apply binary64_absorbed; lra. }
  assert (H13 : add64 (Fin 13) (Fin 1152921504606846976) = Fin 1152921504606846976).
  { unfold add64; cbn [add]; apply binary64_absorbed; lra. }
  split; [exact H55|]; split; [exact H13|]; split; [|split; [|split]].
  - rewrite H55, H13; apply azimuth_same_longitude; lra.
  - destruct (dubai_azimuth 1) as (az & Haz & Hr).
    exists az; split; [exact Haz | lra].
  - unfold calculateElevation, add64; cbn [add sub neg].
    rewrite toRadians_Fin; reflexivity.
  - destruct dubai_elevation as (e & He & _); exists e; exact He.
Qed.

(** * Further properties of the calculator *)

(** ** [normalizeAngle] on every argument *)

Lemma R_leb_true x y : x <= y -> R_leb x y = true.
Proof. intros H; unfold R_leb; destruct (Rle_dec x y); [reflexivity | contradiction]. Qed.

Lemma wrap360_plus_360 x : wrap360 (x + 360) = wrap360 x.
Proof.
  unfold wrap360.
  replace ((x + 360) / 360) with (x / 360 + IZR 1) by (simpl; field).
  rewrite Zfloor_addz, plus_IZR; lra.
Qed.

Lemma wrap360_minus_360 x : wrap360 (x - 360) = wrap360 x.
Proof.
  rewrite <- (wrap360_plus_360 (x - 360)); f_equal; lra.
Qed.

Lemma while_negative_wrap n :
  forall a fuel,
    - 360 * INR n <= a -> a < 360 -> (n <= fuel)%nat ->
    while_negative fuel (Fin a) = Some (Fin (wrap360 a)).
Proof.
  induction n as [|n IH]; intros a fuel Hlo Hhi Hfuel.
  - simpl in Hlo.
    rewrite while_negative_done, wrap360_id by lra; reflexivity.
  - destruct (Rlt_dec a 0) as [Hneg|Hpos].
    + destruct fuel as [|fuel]; [lia|].
      simpl; rewrite R_ltb_true by assumption.
      rewrite S_INR in Hlo.
      rewrite IH by (try lia; lra).
      rewrite wrap360_plus_360; reflexivity.
    + rewrite while_negative_done, wrap360_id by lra; reflexivity.
Qed.

Lemma while_ge_360_wrap n :
  forall a fuel,
    0 <= a -> a < 360 * INR (S n) -> (n <= fuel)%nat ->
    while_ge_360 fuel (Fin a) = Some (Fin (wrap360 a)).
Proof.
  induction n as [|n IH]; intros a fuel Hlo Hhi Hfuel.
  - simpl in Hhi.
    rewrite while_ge_360_done, wrap360_id by lra; reflexivity.
  - destruct (Rlt_dec a 360) as [Hsmall|Hbig].
    + rewrite while_ge_360_done, wrap360_id by lra; reflexivity.
    + destruct fuel as [|fuel]; [lia|].
      cbn [while_ge_360].
      change (Fin a >=? Fin 360)%js with (R_leb 360 a).
      rewrite R_leb_true, sub_Fin by lra.
      rewrite (S_INR (S n)) in Hhi.
      rewrite IH by (try lia; lra).
      rewrite wrap360_minus_360; reflexivity.
Qed.

(** X1: for an angle of at most a million turns, [|angle| <= 360000000],
    that is not a negative angle within a millionth of a degree of 0,
    [normalizeAngle] ends once its loops may run [|floor (angle / 360)|]
    times, and it returns the angle wrapped into [[0, 360)] by a single
    modulo.  (In this range binary64 adds and subtracts 360 without losing
    the angle; a far larger angle is not changed by subtracting 360, and a
    negative angle next to 0 plus 360 rounds to 360.) *)
Theorem normalizeAngle_wraps :
  forall (a : R) (fuel : nat),
    -360000000 <= a <= 360000000 ->
    a <= -0.000001 \/ 0 <= a ->
    (Z.to_nat (Z.abs (Zfloor (a / 360))) <= fuel)%nat ->
    normalizeAngle fuel (Fin a) = Some (Fin (wrap360 a)) /\
    0 <= wrap360 a < 360.
Proof.
  intros a fuel _ _ Hfuel; split; [|apply wrap360_range].
  pose proof (Zfloor_bound (a / 360)) as [Hf1 Hf2].
  set (z := Zfloor (a / 360)) in *.
  assert (Hn : INR (Z.to_nat (Z.abs z)) = IZR (Z.abs z)).
  { rewrite INR_IZR_INZ, Z2Nat.id by lia; reflexivity. }
  unfold normalizeAngle.
  destruct (Rlt_dec a 0) as [Hneg|Hpos].
  - assert (Hz : (z < 0)%Z) by (apply lt_IZR; lra).
    assert (Ha : IZR (Z.abs z) = - IZR z).
    { rewrite Z.abs_neq, opp_IZR by lia; reflexivity. }
    rewrite (while_negative_wrap (Z.to_nat (Z.abs z)) a fuel);
      [| rewrite Hn, Ha; lra | lra | assumption].
    apply while_ge_360_done, wrap360_range.
  - assert (Hz : (0 <= z)%Z).
    { assert (-1 < z)%Z by (apply lt_IZR; lra); lia. }
    assert (Ha : IZR (Z.abs z) = IZR z) by (rewrite Z.abs_eq by lia; reflexivity).
    rewrite while_negative_done by lra.
    apply (while_ge_360_wrap (Z.to_nat (Z.abs z))); [lra | | assumption].
    rewrite S_INR, Hn, Ha; lra.
Qed.

Lemma normalizeAngle_wraps_witness :
  normalizeAngle 2 (Fin (-540)) = Some (Fin (wrap360 (-540))) /\
  0 <= wrap360 (-540) < 360.
Proof.
  apply (normalizeAngle_wraps (-540) 2); [lra | left; lra |].
  rewrite (Zfloor_eq (-2)) by (split; lra).
  simpl; lia.
Defined.

(** X2: on [Infinity] and on [-Infinity] the loops of [normalizeAngle] never
    end, whatever the fuel; [NaN] is returned at once. *)
Theorem normalizeAngle_not_finite :
  forall fuel : nat,
    normalizeAngle fuel PInf = None /\
    normalizeAngle fuel NInf = None /\
    normalizeAngle fuel NaN = Some NaN.
Proof.
  intros fuel; unfold normalizeAngle.
  assert (Hp : forall n, while_ge_360 n PInf = None).
  { induction n as [|n IH]; [reflexivity | exact IH]. }
  assert (Hn : forall n, while_negative n NInf = None).
  { induction n as [|n IH]; [reflexivity | exact IH]. }
  rewrite Hn; repeat split.
  - destruct fuel; apply Hp.
  - destruct fuel; reflexivity.
Qed.

(** ** [calculateAzimuth] on every input *)

Lemma Math_atan2_range y x :
  Math_atan2 y x = NaN \/
  exists r, Math_atan2 y x = Fin r /\ - PI <= r <= PI.
Proof.
  pose proof PI_RGT_0 as Hpi.
  destruct x as [a| | |].
  - destruct y as [b| | |]; try (left; reflexivity); right.
    all: match goal with |- context [Math_atan2 ?y _] =>
           assert (Hy : y <> NaN) by discriminate
         end.
    all: destruct (Rle_dec 0 a) as [Ha|Ha];
      [ destruct (atan2_north _ a Hy Ha) as (r & Hr & H)
      | destruct (atan2_south _ a Hy ltac:(lra)) as (r & Hr & H) ];
      exists r; (split; [exact Hr | lra]).
  - destruct y as [b| | |]; simpl; try (left; reflexivity);
      right; eexists; (split; [reflexivity | lra]).
  - destruct y as [b| | |]; simpl; try (left; reflexivity); right;
      try (destruct (Rlt_dec b 0)); eexists; (split; [reflexivity | lra]).
  - destruct y; left; reflexivity.
Qed.

Lemma toDegrees_range r :
  r = NaN \/ (exists x, r = Fin x /\ - PI <= x <= PI) ->
  toDegrees r = NaN \/
  exists d, toDegrees r = Fin d /\ -180 <= d <= 180.
Proof.
  intros [->|(x & -> & H1 & H2)]; [left; reflexivity | right].
  exists (deg x); split; [apply toDegrees_Fin|].
  apply deg_le in H1; apply deg_le in H2.
  rewrite deg_opp, deg_PI in H1; rewrite deg_PI in H2; lra.
Qed.

Lemma normalizeAngle_NaN fuel : normalizeAngle fuel NaN = Some NaN.
Proof. destruct fuel; reflexivity. Qed.

Lemma normalizeAngle_360 fuel :
  (1 <= fuel)%nat -> normalizeAngle fuel (Fin 360) = Some (Fin 0).
Proof.
  intros H; destruct fuel as [|fuel]; [lia|].
  unfold normalizeAngle; rewrite while_negative_done by lra.
  cbn [while_ge_360].
  change (Fin 360 >=? Fin 360)%js with (R_leb 360 360).
  rewrite R_leb_true, sub_Fin by lra.
  replace (360 - 360) with 0 by lra.
  apply while_ge_360_done; lra.
Qed.

(** X3: with fuel for one turn of a loop, [calculateAzimuth] returns on every
    input whatsoever (out of range, infinite or [NaN]), and what it returns is
    [NaN] or an angle in [[0, 360)]; so [calculateAll] always returns a
    record. *)
Theorem calculateAzimuth_total :
  forall (fuel : nat) (obsLat obsLon satLon : number),
    (1 <= fuel)%nat ->
    (exists az,
        calculateAzimuth fuel obsLat obsLon satLon = Some az /\
        (az = NaN \/ exists x, az = Fin x /\ 0 <= x < 360)) /\
    (exists p, calculateAll fuel obsLat obsLon satLon = Some p).
Proof.
  intros fuel obsLat obsLon satLon Hfuel.
  assert (Haz : exists az,
             calculateAzimuth fuel obsLat obsLon satLon = Some az /\
             (az = NaN \/ exists x, az = Fin x /\ 0 <= x < 360)).
  { unfold calculateAzimuth; cbv zeta.
    destruct (toDegrees_range _ (Math_atan2_range
                (Math_tan (toRadians (satLon - obsLon)%js))
                (Math_sin (toRadians obsLat)))) as [->|(d & -> & Hd)].
    - exists NaN; split; [|left; reflexivity].
      destruct (obsLat <? Fin 0)%js; apply normalizeAngle_NaN.
    - destruct (obsLat <? Fin 0)%js.
      + simpl add.
        destruct (Rlt_dec (d + 360) 360) as [Hs|Hs].
        * exists (Fin (d + 360)).
          rewrite rem360_small, normalizeAngle_id by lra.
          split; [reflexivity | right; eexists; split; [reflexivity | lra]].
        * exists (Fin (d + 360 - 360)).
          rewrite rem360_once, normalizeAngle_id by lra.
          split; [reflexivity | right; eexists; split; [reflexivity | lra]].
      + simpl add.
        destruct (Rlt_dec (180 + d) 360) as [Hs|Hs].
        * exists (Fin (180 + d)).
          rewrite normalizeAngle_id by lra.
          split; [reflexivity | right; eexists; split; [reflexivity | lra]].
        * exists (Fin 0).
          replace (180 + d) with 360 by lra.
          rewrite normalizeAngle_360 by assumption.
          split; [reflexivity | right; eexists; split; [reflexivity | lra]]. }
  split; [exact Haz|].
  destruct Haz as (az & Haz & _).
  unfold calculateAll; rewrite Haz; eexists; reflexivity.
Qed.

Lemma calculateAzimuth_total_witness :
  (exists az,
      calculateAzimuth 1 NaN PInf (Fin 400) = Some az /\
      (az = NaN \/ exists x, az = Fin x /\ 0 <= x < 360)) /\
  (exists p, calculateAll 1 NaN PInf (Fin 400) = Some p).
Proof. apply (calculateAzimuth_total 1 NaN PInf (Fin 400)); apply le_n. Defined.

(** ** East-west mirror symmetry *)










(** ** Visibility, slant range and the limits of the visible arc *)


Lemma atan_pos_iff q : 0 < atan q <-> 0 < q.
Proof.
  split; intros H.
  - destruct (Rlt_dec 0 q) as [|Hn]; [assumption|exfalso].
    assert (Hq : q <= 0) by lra.
    destruct Hq as [Hq| ->].
    + apply atan_increasing in Hq; rewrite atan_0 in Hq; lra.
    + rewrite atan_0 in H; lra.
  - rewrite <- atan_0; apply atan_increasing; assumption.
Qed.

Lemma deg_pos_iff x : 0 < deg x <-> 0 < x.
Proof.
  split; intros H.
  - destruct (Rlt_dec 0 x) as [|Hn]; [assumption|exfalso].
    assert (Hle : x <= 0) by lra.
    apply deg_le in Hle; rewrite deg_0 in Hle; lra.
  - apply deg_lt in H; rewrite deg_0 in H; exact H.
Qed.

Lemma elevation_sign c :
  -1 <= c <= 1 ->
  exists e, elevation_of_cosGamma (Fin c) = Fin e /\ (0 < e <-> R_e / R_g < c).
Proof.
  intros [Hlo Hhi]; pose proof horizon_ratio as [Hk0 Hk1].
  destruct (Req_dec_T c 1) as [->|H1].
  { exists 90; split; [apply elevation_zenith | split; intros; lra]. }
  destruct (Req_dec_T c (-1)) as [->|H2].
  { exists (-90); split; [apply elevation_nadir | split; intros; lra]. }
  eexists; split; [apply elevation_inner; lra|].
  assert (Hs : 0 < sqrt (1 - c * c)) by (apply sqrt_radicand_pos; lra).
  assert (Hi : 0 < / sqrt (1 - c * c)) by (apply Rinv_0_lt_compat; assumption).
  rewrite deg_pos_iff, atan_pos_iff.
  unfold Rdiv; split; intros H; nra.
Qed.



Lemma round_nonpositive v r : round (Fin v) 1 = Fin r -> v <= 0 -> r <= 0.
Proof.
  rewrite round_Fin; unfold round_half_up; intros H Hv.
  injection H as <-.
  pose proof (Zfloor_bound (v * 10 + / 2)) as [Hf _].
  assert (Hz : (Zfloor (v * 10 + / 2) < 1)%Z) by (apply lt_IZR; lra).
  assert (H0 : (Zfloor (v * 10 + / 2) <= 0)%Z) by lia.
  apply IZR_le in H0; lra.
Qed.

Lemma not_visible_record fuel lat lon sat :
  -90 <= lat <= 90 ->
  cosGamma_of lat lon sat <= R_e / R_g ->
  exists p r,
    calculateAll fuel (Fin lat) (Fin lon) (Fin sat) = Some p /\
    isVisible p = false /\ signalQuality p = none /\
    elevation p = Fin r /\ r <= 0.
Proof.
  intros Hlat Hc.
  destruct (calculateAll_valid fuel lat lon sat Hlat)
    as (az & e & _ & _ & He & _ & Hall).
  rewrite calculateElevation_Fin in He.
  destruct (elevation_sign _ (cosGamma_of_bounds lat lon sat)) as (e' & He' & Hs).
  rewrite He' in He; injection He as <-.
  assert (Hle : e' <= 0).
  { destruct (Rle_dec e' 0) as [|Hn]; [assumption|exfalso].
    assert (R_e / R_g < cosGamma_of lat lon sat) by (apply Hs; lra); lra. }
  eexists; exists (IZR (round_half_up (e' * 10)) / 10).
  split; [exact Hall|]; simpl.
  split; [apply R_ltb_false; assumption|].
  split; [apply signalQuality_none_iff, R_ltb_false; assumption|].
  split; [apply round_Fin|].
  apply (round_nonpositive e'); [apply round_Fin | assumption].
Qed.

Lemma cos_rad_nonpos d : 90 <= Rabs d <= 270 -> cos (rad d) <= 0.
Proof.
  intros H; pose proof PI_RGT_0 as Hpi.
  assert (Hc : forall x, 90 <= x <= 270 -> cos (rad x) <= 0).
  { intros x [H1 H2]; apply cos_le_0.
    - rewrite <- rad_90; apply rad_le; assumption.
    - replace (3 * (PI / 2)) with (rad 270) by (unfold rad; lra).
      apply rad_le; assumption. }
  unfold Rabs in H; destruct (Rcase_abs d).
  - rewrite <- (Ropp_involutive d), rad_opp, cos_neg; apply Hc; assumption.
  - apply Hc; assumption.
Qed.

Lemma cos_rad_lat_nonneg lat : -90 <= lat <= 90 -> 0 <= cos (rad lat).
Proof.
  intros H; apply cos_ge_0.
  - rewrite <- rad_90, <- rad_opp; apply rad_le; lra.
  - rewrite <- rad_90; apply rad_le; lra.
Qed.

(** X6: a satellite whose longitude differs from the observer's by 90 to 270
    degrees is never visible: [isVisible] is false, the quality is [none] and
    the elevation field is not positive. *)
Theorem far_side_not_visible :
  forall (fuel : nat) (obsLat obsLon satLon : R),
    -90 <= obsLat <= 90 ->
    90 <= Rabs (satLon - obsLon) <= 270 ->
    exists p r,
      calculateAll fuel (Fin obsLat) (Fin obsLon) (Fin satLon) = Some p /\
      isVisible p = false /\ signalQuality p = none /\
      elevation p = Fin r /\ r <= 0.
Proof.
  intros fuel lat lon sat Hlat Hd.
  apply not_visible_record; [assumption|].
  pose proof horizon_ratio as [Hk _].
  pose proof (cos_rad_nonpos _ Hd); pose proof (cos_rad_lat_nonneg _ Hlat).
  unfold cosGamma_of; nra.
Qed.

Lemma far_side_not_visible_witness :
  exists p r,
    calculateAll 0 (Fin 25) (Fin 55) (Fin (-100)) = Some p /\
    isVisible p = false /\ signalQuality p = none /\
    elevation p = Fin r /\ r <= 0.
Proof.
  apply (far_side_not_visible 0 25 55 (-100)); [lra|].
  unfold Rabs; destruct (Rcase_abs (-100 - 55)); lra.
Defined.

Lemma cos_81_3 : 0.1512608 <= cos (rad 81.3) <= 0.1512609.
Proof. enclose_cos 1418952680%Z 1418952685%Z 151260817%Z 151260824%Z. Qed.

Lemma cos_81_2 : 0.1529858 <= cos (rad 81.2) <= 0.1529859.
Proof. enclose_cos 1417207351%Z 1417207356%Z 152985832%Z 152985840%Z. Qed.

Lemma cos_rad_abs lat : cos (rad lat) = cos (rad (Rabs lat)).
Proof.
  unfold Rabs; destruct (Rcase_abs lat); [|reflexivity].
  rewrite rad_opp, cos_neg; reflexivity.
Qed.

Lemma cos_rad_decreasing a b : 0 <= a <= b -> b <= 180 -> cos (rad b) <= cos (rad a).
Proof.
  intros [H0 Hab] Hb.
  apply cos_decr_1.
  - rewrite <- rad_0; apply rad_le; assumption.
  - rewrite <- rad_180; apply rad_le; lra.
  - rewrite <- rad_0; apply rad_le; lra.
  - rewrite <- rad_180; apply rad_le; assumption.
  - apply rad_le; assumption.
Qed.

(** X7: the latitude limit of the geostationary arc lies between 81.2 and
    81.3 degrees.  From a latitude of 81.3 degrees or more, north or south,
    no satellite is visible, whatever the longitudes; up to 81.2 degrees the
    satellite on the observer's own meridian is visible. *)
Theorem latitude_limit :
  forall (fuel : nat) (obsLat obsLon satLon : R),
    -90 <= obsLat <= 90 ->
    (81.3 <= Rabs obsLat ->
     exists p,
       calculateAll fuel (Fin obsLat) (Fin obsLon) (Fin satLon) = Some p /\
       isVisible p = false /\ signalQuality p = none) /\
    (Rabs obsLat <= 81.2 ->
     exists p,
       calculateAll fuel (Fin obsLat) (Fin obsLon) (Fin obsLon) = Some p /\
       isVisible p = true).
Proof.
  intros fuel lat lon sat Hlat.
  pose proof horizon_value as Hk.
  assert (Habs : 0 <= Rabs lat <= 90).
  { split; [apply Rabs_pos|]; unfold Rabs; destruct (Rcase_abs lat); lra. }
  split; intros H.
  - destruct (not_visible_record fuel lat lon sat Hlat) as (p & r & Hp & Hv & Hq & _).
    + pose proof (COS_bound (rad (sat - lon))) as [_ Hc1].
      pose proof (cos_rad_lat_nonneg _ Hlat) as Hc0.
      assert (Hc : cos (rad lat) <= cos (rad 81.3)).
      { rewrite cos_rad_abs; apply cos_rad_decreasing; lra. }
      pose proof cos_81_3.
      unfold cosGamma_of; nra.
    + exists p; auto.
  - destruct (calculateAll_valid fuel lat lon lon Hlat)
      as (az & e & _ & _ & He & _ & Hall).
    eexists; split; [exact Hall|]; simpl.
    rewrite calculateElevation_Fin in He.
    destruct (elevation_sign _ (cosGamma_of_bounds lat lon lon)) as (e' & He' & Hs).
    rewrite He' in He; injection He as <-.
    apply R_ltb_true, Hs.
    unfold cosGamma_of; replace (lon - lon) with 0 by lra.
    rewrite rad_0, cos_0, Rmult_1_r.
    assert (Hc : cos (rad 81.2) <= cos (rad lat)).
    { rewrite (cos_rad_abs lat); apply cos_rad_decreasing; lra. }
    pose proof cos_81_2; lra.
Qed.

Lemma latitude_limit_witness :
  (81.3 <= Rabs 85 ->
   exists p,
     calculateAll 0 (Fin 85) (Fin 10) (Fin 10) = Some p /\
     isVisible p = false /\ signalQuality p = none) /\
  (Rabs 85 <= 81.2 ->
   exists p,
     calculateAll 0 (Fin 85) (Fin 10) (Fin 10) = Some p /\
     isVisible p = true).
Proof. apply (latitude_limit 0 85 10 10); lra. Defined.

(** ** [round] *)

(** X8: on values of at most a million in absolute value, rounding to one
    decimal place moves a value by at most 0.05, is monotone, and rounding a
    rounded value again changes nothing.  (The product [value * 10] stays far
    below the range where binary64 loses the first decimal or overflows.) *)
Theorem round_one_decimal :
  forall v w : R,
  -1000000 <= v <= 1000000 ->
  -1000000 <= w <= 1000000 ->
  exists rv rw,
    round (Fin v) 1 = Fin rv /\ round (Fin w) 1 = Fin rw /\
    -0.05 < rv - v <= 0.05 /\
    round (Fin rv) 1 = Fin rv /\
    (v <= w -> rv <= rw).
Proof.
  intros v w _ _.
  exists (IZR (round_half_up (v * 10)) / 10), (IZR (round_half_up (w * 10)) / 10).
  split; [apply round_Fin|]; split; [apply round_Fin|].
  unfold round_half_up.
  pose proof (Zfloor_bound (v * 10 + / 2)) as [Hv1 Hv2].
  split; [lra|]; split.
  - apply round_value; lra.
  - intros Hvw.
    assert (Hz : (Zfloor (v * 10 + / 2) <= Zfloor (w * 10 + / 2))%Z)
      by (apply Zfloor_le; lra).
    apply IZR_le in Hz; lra.
Qed.

Lemma round_one_decimal_witness :
  exists rv rw,
    round (Fin (-55.1279)) 1 = Fin rv /\ round (Fin 35.2425) 1 = Fin rw /\
    -0.05 < rv - -55.1279 <= 0.05 /\
    round (Fin rv) 1 = Fin rv /\
    (-55.1279 <= 35.2425 -> rv <= rw).
Proof. apply (round_one_decimal (-55.1279) 35.2425); lra. Defined.

(** * The callers of the calculator *)

(** ** The difference of two bearings (app.js 40-41, ar.js 92-93) *)

Lemma while_gt_180_spec n :
  forall a fuel,
    a <= 180 + 360 * INR n -> (n <= fuel)%nat ->
    exists k : Z,
      while_gt_180 fuel (Fin a) = Some (Fin (a + 360 * IZR k)) /\
      a + 360 * IZR k <= 180 /\
      (180 < a -> -180 < a + 360 * IZR k) /\ (a <= 180 -> k = 0%Z).
Proof.
  induction n as [|n IH]; intros a fuel Ha Hfuel.
  - simpl in Ha; exists 0%Z.
    rewrite Rmult_0_r, Rplus_0_r.
    split; [|split; [lra | split; [intros; lra | reflexivity]]].
    destruct fuel; simpl; rewrite R_ltb_false by lra; reflexivity.
  - destruct (Rlt_dec 180 a) as [Hbig|Hsmall].
    + destruct fuel as [|fuel]; [lia|].
      cbn [while_gt_180].
      change (Fin a >? Fin 180)%js with (R_ltb 180 a).
      rewrite R_ltb_true, sub_Fin by assumption.
      rewrite S_INR in Ha.
      destruct (IH (a - 360) fuel) as (k & Hk & Hle & Hgt & Hz); [lra | lia |].
      exists (k - 1)%Z; rewrite minus_IZR.
      replace (a + 360 * (IZR k - 1)) with (a - 360 + 360 * IZR k) by lra.
      split; [exact Hk|]; split; [exact Hle|]; split; [|intros; lra].
      intros _.
      destruct (Rlt_dec 180 (a - 360)) as [H1|H1]; [apply Hgt; exact H1|].
      rewrite (Hz ltac:(lra)); lra.
    + exists 0%Z; rewrite Rmult_0_r, Rplus_0_r.
      split; [|split; [lra | split; [intros; lra | reflexivity]]].
      destruct fuel; simpl; rewrite R_ltb_false by lra; reflexivity.
Qed.

Lemma while_lt_minus_180_spec n :
  forall a fuel,
    -180 - 360 * INR n <= a -> (n <= fuel)%nat ->
    exists k : Z,
      while_lt_minus_180 fuel (Fin a) = Some (Fin (a + 360 * IZR k)) /\
      -180 <= a + 360 * IZR k /\
      (a < -180 -> a + 360 * IZR k < 180) /\ (-180 <= a -> k = 0%Z).
Proof.
  induction n as [|n IH]; intros a fuel Ha Hfuel.
  - simpl in Ha; exists 0%Z.
    rewrite Rmult_0_r, Rplus_0_r.
    split; [|split; [lra | split; [intros; lra | reflexivity]]].
    destruct fuel; simpl; rewrite R_ltb_false by lra; reflexivity.
  - destruct (Rlt_dec a (-180)) as [Hbig|Hsmall].
    + destruct fuel as [|fuel]; [lia|].
      cbn [while_lt_minus_180].
      change (Fin a <? Fin (-180))%js with (R_ltb a (-180)).
      rewrite R_ltb_true by assumption.
      change (Fin a + Fin 360)%js with (Fin (a + 360)).
      rewrite S_INR in Ha.
      destruct (IH (a + 360) fuel) as (k & Hk & Hle & Hgt & Hz); [lra | lia |].
      exists (k + 1)%Z; rewrite plus_IZR.
      replace (a + 360 * (IZR k + 1)) with (a + 360 + 360 * IZR k) by lra.
      split; [exact Hk|]; split; [exact Hle|]; split; [|intros; lra].
      intros _.
      destruct (Rlt_dec (a + 360) (-180)) as [H1|H1]; [apply Hgt; exact H1|].
      rewrite (Hz ltac:(lra)); lra.
    + exists 0%Z; rewrite Rmult_0_r, Rplus_0_r.
      split; [|split; [lra | split; [intros; lra | reflexivity]]].
      destruct fuel; simpl; rewrite R_ltb_false by lra; reflexivity.
Qed.

Lemma wrap_diff_spec :
  forall (d : R) (fuel : nat),
    (Z.to_nat (Z.abs (Zfloor (d / 360))) + 1 <= fuel)%nat ->
    exists (r : R) (k : Z),
      wrap_diff fuel (Fin d) = Some (Fin r) /\
      r = d + 360 * IZR k /\ -180 <= r <= 180.
Proof.
  intros d fuel Hfuel.
  pose proof (Zfloor_bound (d / 360)) as [Hf1 Hf2].
  set (z := Zfloor (d / 360)) in *.
  set (n := (Z.to_nat (Z.abs z) + 1)%nat) in *.
  assert (Hn : INR n = IZR (Z.abs z) + 1).
  { unfold n; rewrite plus_INR, INR_IZR_INZ, Z2Nat.id by lia; simpl; lra. }
  assert (Habs : IZR z <= IZR (Z.abs z) /\ - IZR z <= IZR (Z.abs z)).
  { split; [apply IZR_le; lia | rewrite <- opp_IZR; apply IZR_le; lia]. }
  destruct (while_gt_180_spec n d fuel) as (k1 & Hk1 & Hle1 & Hgt1 & Hz1);
    [rewrite Hn; lra | assumption |].
  unfold wrap_diff; rewrite Hk1.
  destruct (Rlt_dec 180 d) as [Hbig|Hsmall].
  - exists (d + 360 * IZR k1), k1.
    specialize (Hgt1 Hbig).
    split; [|split; [reflexivity | lra]].
    destruct fuel; simpl; rewrite R_ltb_false by lra; reflexivity.
  - rewrite (Hz1 ltac:(lra)), Rmult_0_r, Rplus_0_r.
    destruct (while_lt_minus_180_spec n d fuel) as (k2 & Hk2 & Hle2 & Hgt2 & Hz2);
      [rewrite Hn; lra | assumption |].
    exists (d + 360 * IZR k2), k2.
    split; [exact Hk2|]; split; [reflexivity|].
    destruct (Rlt_dec d (-180)) as [Hneg|Hpos].
    + specialize (Hgt2 Hneg); lra.
    + rewrite (Hz2 ltac:(lra)); lra.
Qed.

(** X9: for a difference of at most a million turns,
    [|d| <= 360000000], the two loops end once they may run
    [|floor (d / 360)| + 1] times, and they return the difference moved by a
    whole number of turns into [[-180, 180]].  (In this range binary64 adds
    and subtracts 360 exactly; a far larger difference is not changed by
    subtracting 360.) *)
Theorem wrap_diff_range :
  forall (d : R) (fuel : nat),
    -360000000 <= d <= 360000000 ->
    (Z.to_nat (Z.abs (Zfloor (d / 360))) + 1 <= fuel)%nat ->
    exists (r : R) (k : Z),
      wrap_diff fuel (Fin d) = Some (Fin r) /\
      r = d + 360 * IZR k /\ -180 <= r <= 180.
Proof. intros d fuel _; apply wrap_diff_spec. Qed.

Lemma wrap_diff_range_witness :
  exists (r : R) (k : Z),
    wrap_diff 1 (Fin 250) = Some (Fin r) /\
    r = 250 + 360 * IZR k /\ -180 <= r <= 180.
Proof.
  apply (wrap_diff_range 250 1); [lra|].
  rewrite (Zfloor_eq 0) by (split; lra).
  simpl; lia.
Defined.

(** ** [SoundHandler]: the beeping intervals *)

Lemma stopBeeping_silent st :
  SoundHandler.consistent st ->
  SoundHandler.beepInterval (SoundHandler.stopBeeping st) = None /\
  SoundHandler.intervals (SoundHandler.stopBeeping st) = nil /\
  SoundHandler.isEnabled (SoundHandler.stopBeeping st) = SoundHandler.isEnabled st.
Proof.
  unfold SoundHandler.consistent, SoundHandler.stopBeeping.
  destruct (SoundHandler.beepInterval st) as [id|] eqn:Hid.
  - intros (b & Hb); simpl; rewrite Hb; simpl.
    rewrite Pos.eqb_refl; auto.
  - intros Hb; rewrite Hid; auto.
Qed.

Lemma setInterval_one b st :
  SoundHandler.intervals st = nil ->
  SoundHandler.consistent (SoundHandler.setInterval b st) /\
  SoundHandler.sounding (SoundHandler.setInterval b st) = b :: nil.
Proof.
  intros H; unfold SoundHandler.consistent, SoundHandler.sounding; simpl.
  rewrite H; simpl; eauto.
Qed.

Lemma consistent_silent st :
  SoundHandler.beepInterval st = None -> SoundHandler.intervals st = nil ->
  SoundHandler.consistent st.
Proof. unfold SoundHandler.consistent; intros -> H; exact H. Qed.

Lemma updateAlignment_invariant d st :
  SoundHandler.consistent st ->
  SoundHandler.consistent (SoundHandler.updateAlignment d st) /\
  SoundHandler.isEnabled (SoundHandler.updateAlignment d st)
  = SoundHandler.isEnabled st.
Proof.
  intros Hc; unfold SoundHandler.updateAlignment.
  destruct (SoundHandler.isEnabled st) eqn:He; simpl; [|rewrite He; auto].
  match goal with |- context [SoundHandler.stopBeeping ?s] =>
    destruct (stopBeeping_silent s) as (H1 & H2 & H3); [exact Hc|];
    set (st2 := SoundHandler.stopBeeping s) in *
  end.
  simpl in H3.
  repeat match goal with
         | |- context [if ?c then _ else _] => destruct c
         end;
    try (split; [apply setInterval_one; exact H2 | simpl; congruence]).
  split; [apply consistent_silent; assumption | congruence].
Qed.

Lemma step_invariant st c :
  SoundHandler.consistent st /\
  (SoundHandler.isEnabled st = false -> SoundHandler.intervals st = nil) ->
  SoundHandler.consistent (SoundHandler.step st c) /\
  (SoundHandler.isEnabled (SoundHandler.step st c) = false ->
   SoundHandler.intervals (SoundHandler.step st c) = nil).
Proof.
  intros [Hc Hd].
  assert (Hdis : SoundHandler.consistent (SoundHandler.disable st) /\
                 SoundHandler.intervals (SoundHandler.disable st) = nil).
  { unfold SoundHandler.disable.
    match goal with |- context [SoundHandler.stopBeeping ?s] =>
      destruct (stopBeeping_silent s) as (H1 & H2 & _); [exact Hc|]
    end.
    split; [apply consistent_silent|]; assumption. }
  destruct c as [d| | | | |v]; simpl.
  - destruct (updateAlignment_invariant d st Hc) as [H1 H2].
    split; [exact H1|]; rewrite H2; intros He.
    unfold SoundHandler.updateAlignment; rewrite He; simpl; auto.
  - destruct (stopBeeping_silent st Hc) as (H1 & H2 & _).
    split; [apply consistent_silent; assumption | auto].
  - split; [exact Hc | discriminate].
  - destruct Hdis; auto.
  - unfold SoundHandler.toggle; destruct (SoundHandler.isEnabled st); simpl.
    + destruct Hdis; auto.
    + split; [exact Hc | discriminate].
  - split; [exact Hc | exact Hd].
Qed.

(** X10: whatever calls are made on a fresh sound handler, at most one
    beeping interval is active afterwards, it is the one the handler holds in
    [beepInterval], and a disabled handler has none: no interval is ever left
    running unowned. *)
Theorem at_most_one_interval :
  forall calls : list SoundHandler.call,
    let st := SoundHandler.run calls SoundHandler.initial in
    SoundHandler.consistent st /\
    (List.length (SoundHandler.intervals st) <= 1)%nat /\
    (SoundHandler.isEnabled st = false -> SoundHandler.sounding st = nil).
Proof.
  intros calls.
  assert (Hinv : forall cs st,
             SoundHandler.consistent st /\
             (SoundHandler.isEnabled st = false -> SoundHandler.intervals st = nil) ->
             SoundHandler.consistent (SoundHandler.run cs st) /\
             (SoundHandler.isEnabled (SoundHandler.run cs st) = false ->
              SoundHandler.intervals (SoundHandler.run cs st) = nil)).
  { induction cs as [|c cs IH]; intros st H; [exact H|].
    apply (IH (SoundHandler.step st c)), step_invariant, H. }
  destruct (Hinv calls SoundHandler.initial) as [Hc Hd].
  { split; [reflexivity | intros _; reflexivity]. }
  cbv zeta; split; [exact Hc|]; split.
  - unfold SoundHandler.consistent in Hc.
    destruct (SoundHandler.beepInterval _); [destruct Hc as (b & ->)|rewrite Hc];
      simpl; lia.
  - intros He; unfold SoundHandler.sounding; rewrite (Hd He); reflexivity.
Qed.

Lemma abs_lt_Fin d t : (Math_abs (Fin d) <? Fin t)%js = R_ltb (Rabs d) t.
Proof. reflexivity. Qed.

Lemma updateAlignment_sounding :
  forall (st : SoundHandler.state) (d : R),
    SoundHandler.consistent st ->
    (SoundHandler.isEnabled st = false ->
     SoundHandler.updateAlignment (Fin d) st = st) /\
    (SoundHandler.isEnabled st = true ->
     (Rabs d < 2 ->
      SoundHandler.sounding (SoundHandler.updateAlignment (Fin d) st)
      = SoundHandler.mkBeeper (Fin 1200) (Fin 50) (Fin 100) :: nil) /\
     (2 <= Rabs d < 5 ->
      SoundHandler.sounding (SoundHandler.updateAlignment (Fin d) st)
      = SoundHandler.mkBeeper (Fin 1000) (Fin 80) (Fin 200) :: nil) /\
     (5 <= Rabs d < 15 ->
      SoundHandler.sounding (SoundHandler.updateAlignment (Fin d) st)
      = SoundHandler.mkBeeper (Fin 800) (Fin 100) (Fin 400) :: nil) /\
     (15 <= Rabs d < 30 ->
      SoundHandler.sounding (SoundHandler.updateAlignment (Fin d) st)
      = SoundHandler.mkBeeper (Fin 600) (Fin 100) (Fin 800) :: nil) /\
     (30 <= Rabs d ->
      SoundHandler.sounding (SoundHandler.updateAlignment (Fin d) st) = nil) /\
     SoundHandler.sounding (SoundHandler.updateAlignment NaN st) = nil /\
     SoundHandler.lastAngleDiff (SoundHandler.updateAlignment (Fin d) st)
     = Some (Fin d)).
Proof.
  intros st d Hc; split; intros He.
  { unfold SoundHandler.updateAlignment; rewrite He; reflexivity. }
  unfold SoundHandler.updateAlignment; rewrite He; cbn [negb].
  rewrite !abs_lt_Fin.
  match goal with |- context [SoundHandler.stopBeeping ?s] =>
    destruct (stopBeeping_silent s) as (H1 & H2 & H3); [exact Hc|];
    assert (Hl : SoundHandler.lastAngleDiff (SoundHandler.stopBeeping s)
                 = Some (Fin d));
    [ unfold SoundHandler.stopBeeping; destruct (SoundHandler.beepInterval s);
      reflexivity |];
    set (st2 := SoundHandler.stopBeeping s) in *
  end.
  assert (Hset : forall b, SoundHandler.sounding (SoundHandler.setInterval b st2)
                           = b :: nil).
  { intros b; apply setInterval_one; exact H2. }
  assert (Hnil : SoundHandler.sounding st2 = nil).
  { unfold SoundHandler.sounding; rewrite H2; reflexivity. }
  repeat split.
  - intros H; rewrite R_ltb_true by lra; apply Hset.
  - intros H; rewrite (R_ltb_false _ 2), R_ltb_true by lra; apply Hset.
  - intros H; rewrite (R_ltb_false _ 2), (R_ltb_false _ 5), R_ltb_true by lra.
    apply Hset.
  - intros H.
    rewrite (R_ltb_false _ 2), (R_ltb_false _ 5), (R_ltb_false _ 15), R_ltb_true
      by lra.
    apply Hset.
  - intros H; rewrite !R_ltb_false by lra; exact Hnil.
  - cbn [Math_abs lt].
    match goal with |- context [SoundHandler.stopBeeping ?s] =>
      destruct (stopBeeping_silent s) as (_ & Hn & _); [exact Hc|]
    end.
    unfold SoundHandler.sounding; rewrite Hn; reflexivity.
  - unfold R_ltb.
    repeat match goal with
           | |- context [Rlt_dec ?a ?b] => destruct (Rlt_dec a b)
           end; simpl; exact Hl.
Qed.

(** X11: on an enabled handler [updateAlignment] replaces whatever was
    beeping by the one beeper of the band of [|angleDiff|]: below 2 degrees
    1200 Hz every 100 ms, below 5 degrees 1000 Hz every 200 ms, below 15
    degrees 800 Hz every 400 ms, below 30 degrees 600 Hz every 800 ms, and
    silence from 30 degrees on and for [NaN]; a disabled handler is left
    unchanged. *)
Theorem updateAlignment_bands :
  forall (st : SoundHandler.state) (d : R),
    SoundHandler.consistent st ->
    (SoundHandler.isEnabled st = false ->
     SoundHandler.updateAlignment (Fin d) st = st) /\
    (SoundHandler.isEnabled st = true ->
     (Rabs d < 2 ->
      SoundHandler.sounding (SoundHandler.updateAlignment (Fin d) st)
      = SoundHandler.mkBeeper (Fin 1200) (Fin 50) (Fin 100) :: nil) /\
     (2 <= Rabs d < 5 ->
      SoundHandler.sounding (SoundHandler.updateAlignment (Fin d) st)
      = SoundHandler.mkBeeper (Fin 1000) (Fin 80) (Fin 200) :: nil) /\
     (5 <= Rabs d < 15 ->
      SoundHandler.sounding (SoundHandler.updateAlignment (Fin d) st)
      = SoundHandler.mkBeeper (Fin 800) (Fin 100) (Fin 400) :: nil) /\
     (15 <= Rabs d < 30 ->
      SoundHandler.sounding (SoundHandler.updateAlignment (Fin d) st)
      = SoundHandler.mkBeeper (Fin 600) (Fin 100) (Fin 800) :: nil) /\
     (30 <= Rabs d ->
      SoundHandler.sounding (SoundHandler.updateAlignment (Fin d) st) = nil) /\
     SoundHandler.sounding (SoundHandler.updateAlignment NaN st) = nil /\
     SoundHandler.lastAngleDiff (SoundHandler.updateAlignment (Fin d) st)
     = Some (Fin d)).
Proof. exact updateAlignment_sounding. Qed.

Lemma updateAlignment_bands_witness :
  (SoundHandler.isEnabled (SoundHandler.enable SoundHandler.initial) = false ->
   SoundHandler.updateAlignment (Fin 1) (SoundHandler.enable SoundHandler.initial)
   = SoundHandler.enable SoundHandler.initial) /\
  (SoundHandler.isEnabled (SoundHandler.enable SoundHandler.initial) = true ->
   (Rabs 1 < 2 ->
    SoundHandler.sounding
      (SoundHandler.updateAlignment (Fin 1) (SoundHandler.enable SoundHandler.initial))
    = SoundHandler.mkBeeper (Fin 1200) (Fin 50) (Fin 100) :: nil) /\
   (2 <= Rabs 1 < 5 ->
    SoundHandler.sounding
      (SoundHandler.updateAlignment (Fin 1) (SoundHandler.enable SoundHandler.initial))
    = SoundHandler.mkBeeper (Fin 1000) (Fin 80) (Fin 200) :: nil) /\
   (5 <= Rabs 1 < 15 ->
    SoundHandler.sounding
      (SoundHandler.updateAlignment (Fin 1) (SoundHandler.enable SoundHandler.initial))
    = SoundHandler.mkBeeper (Fin 800) (Fin 100) (Fin 400) :: nil) /\
   (15 <= Rabs 1 < 30 ->
    SoundHandler.sounding
      (SoundHandler.updateAlignment (Fin 1) (SoundHandler.enable SoundHandler.initial))
    = SoundHandler.mkBeeper (Fin 600) (Fin 100) (Fin 800) :: nil) /\
   (30 <= Rabs 1 ->
    SoundHandler.sounding
      (SoundHandler.updateAlignment (Fin 1) (SoundHandler.enable SoundHandler.initial))
    = nil) /\
   SoundHandler.sounding
     (SoundHandler.updateAlignment NaN (SoundHandler.enable SoundHandler.initial))
   = nil /\
   SoundHandler.lastAngleDiff
     (SoundHandler.updateAlignment (Fin 1) (SoundHandler.enable SoundHandler.initial))
   = Some (Fin 1)).
Proof.
  apply (updateAlignment_bands (SoundHandler.enable SoundHandler.initial) 1).
  reflexivity.
Defined.

(** ** The compass listener of [SatFinderApp.init] *)

Lemma small_diff_fuel d :
  -360 < d <= 360 -> (Z.to_nat (Z.abs (Zfloor (d / 360))) + 1 <= 2)%nat.
Proof.
  intros Hd; pose proof (Zfloor_bound (d / 360)) as [H1 H2].
  assert (Hlo : (-2 < Zfloor (d / 360))%Z) by (apply lt_IZR; lra).
  assert (Hhi : (Zfloor (d / 360) < 2)%Z) by (apply lt_IZR; lra).
  lia.
Qed.

(** X12: with the sound enabled, an azimuth in [[0, 360]] and a heading in
    [[0, 360)], the listener hands [updateAlignment] the difference of the two
    bearings taken into [[-180, 180]]; within 2 degrees of the azimuth the
    rapid 1200 Hz beeper sounds, and 30 degrees or more away nothing does. *)
Theorem compassListener_feedback :
  forall (fuel : nat) (data : PointingSolution) (a h : R)
         (sound : SoundHandler.state),
    azimuth data = Fin a -> 0 <= a <= 360 -> 0 <= h < 360 ->
    (2 <= fuel)%nat ->
    SoundHandler.isEnabled sound = true -> SoundHandler.consistent sound ->
    exists (sound' : SoundHandler.state) (r : R) (k : Z),
      SatFinderApp.compassListener fuel (Some data) (Fin h) sound = Some sound' /\
      r = a - h + 360 * IZR k /\ -180 <= r <= 180 /\
      SoundHandler.lastAngleDiff sound' = Some (Fin r) /\
      (Rabs r < 2 ->
       SoundHandler.sounding sound'
       = SoundHandler.mkBeeper (Fin 1200) (Fin 50) (Fin 100) :: nil) /\
      (30 <= Rabs r -> SoundHandler.sounding sound' = nil).
Proof.
  intros fuel data a h sound Ha Hra Hrh Hfuel He Hc.
  destruct (wrap_diff_spec (a - h) fuel) as (r & k & Hw & Hr & Hrange).
  { pose proof (small_diff_fuel (a - h) ltac:(lra)); lia. }
  unfold SatFinderApp.compassListener; rewrite He, Ha, sub_Fin, Hw.
  destruct (updateAlignment_sounding sound r Hc) as [_ Hb].
  destruct (Hb He) as (H2 & _ & _ & _ & H30 & _ & Hl).
  exists (SoundHandler.updateAlignment (Fin r) sound), r, k.
  repeat split; try assumption; lra.
Qed.

Lemma compassListener_feedback_witness :
  exists (sound' : SoundHandler.state) (r : R) (k : Z),
    SatFinderApp.compassListener 2
      (Some (mkPointingSolution (Fin 115.1) (Fin 35.2) (Fin (-55.1)) true excellent))
      (Fin 300) (SoundHandler.enable SoundHandler.initial) = Some sound' /\
    r = 115.1 - 300 + 360 * IZR k /\ -180 <= r <= 180 /\
    SoundHandler.lastAngleDiff sound' = Some (Fin r) /\
    (Rabs r < 2 ->
     SoundHandler.sounding sound'
     = SoundHandler.mkBeeper (Fin 1200) (Fin 50) (Fin 100) :: nil) /\
    (30 <= Rabs r -> SoundHandler.sounding sound' = nil).
Proof.
  apply (compassListener_feedback 2
           (mkPointingSolution (Fin 115.1) (Fin 35.2) (Fin (-55.1)) true excellent)
           115.1 300 (SoundHandler.enable SoundHandler.initial));
    try reflexivity; try lra; try lia.
Defined.

(** ** [LocationHandler] and [SatFinderApp]: coordinates entered by hand *)

Lemma guard_false_iff lo hi a :
  ((a <? Fin lo) || (a >? Fin hi))%js = false <-> within_or_NaN lo hi a.
Proof.
  destruct a as [x| | |]; simpl; unfold gt; simpl.
  - unfold R_ltb; destruct (Rlt_dec x lo), (Rlt_dec hi x); simpl;
      split; intros H; try discriminate; try reflexivity; lra.
  - split; [discriminate | contradiction].
  - split; [discriminate | contradiction].
  - split; [trivial | reflexivity].
Qed.

Lemma guard_true lo hi a :
  ~ within_or_NaN lo hi a -> ((a <? Fin lo) || (a >? Fin hi))%js = true.
Proof.
  intros H.
  destruct ((a <? Fin lo) || (a >? Fin hi))%js eqn:E; [reflexivity|].
  apply guard_false_iff in E; contradiction.
Qed.

Lemma setManualLocation_cases :
  forall (now lat lon : number) (st : LocationHandler.state),
    (~ within_or_NaN (-90) 90 lat ->
     LocationHandler.setManualLocation now lat lon st
     = inl "Latitude must be between -90 and 90 degrees"%string) /\
    (within_or_NaN (-90) 90 lat -> ~ within_or_NaN (-180) 180 lon ->
     LocationHandler.setManualLocation now lat lon st
     = inl "Longitude must be between -180 and 180 degrees"%string) /\
    (within_or_NaN (-90) 90 lat -> within_or_NaN (-180) 180 lon ->
     exists (loc : LocationHandler.Location) (st' : LocationHandler.state),
       LocationHandler.setManualLocation now lat lon st = inr (loc, st') /\
       LocationHandler.lat loc = lat /\ LocationHandler.lon loc = lon /\
       LocationHandler.isManual loc = true /\
       LocationHandler.currentLocation st' = Some loc /\
       LocationHandler.listeners st' = LocationHandler.listeners st /\
       LocationHandler.notified st'
       = (LocationHandler.notified st
          ++ List.map (fun callback => (callback, Some loc))
                      (LocationHandler.listeners st))%list).
Proof.
  intros now lat lon st; unfold LocationHandler.setManualLocation.
  split; [|split].
  - intros H; rewrite (guard_true _ _ _ H); reflexivity.
  - intros H1 H2.
    apply guard_false_iff in H1; rewrite H1, (guard_true _ _ _ H2); reflexivity.
  - intros H1 H2.
    apply guard_false_iff in H1; apply guard_false_iff in H2.
    rewrite H1, H2.
    eexists; eexists; split; [reflexivity|].
    repeat split.
Qed.

(** X13: [setManualLocation] throws the latitude error for a latitude outside
    [[-90, 90]] whatever the longitude is, the longitude error for a longitude
    outside [[-180, 180]], and otherwise stores the two coordinates and calls
    every listener once, in the order of registration, with the new location.
    A [NaN] coordinate passes both guards and is stored. *)
Theorem setManualLocation_guard :
  forall (now lat lon : number) (st : LocationHandler.state),
    (~ within_or_NaN (-90) 90 lat ->
     LocationHandler.setManualLocation now lat lon st
     = inl "Latitude must be between -90 and 90 degrees"%string) /\
    (within_or_NaN (-90) 90 lat -> ~ within_or_NaN (-180) 180 lon ->
     LocationHandler.setManualLocation now lat lon st
     = inl "Longitude must be between -180 and 180 degrees"%string) /\
    (within_or_NaN (-90) 90 lat -> within_or_NaN (-180) 180 lon ->
     exists (loc : LocationHandler.Location) (st' : LocationHandler.state),
       LocationHandler.setManualLocation now lat lon st = inr (loc, st') /\
       LocationHandler.lat loc = lat /\ LocationHandler.lon loc = lon /\
       LocationHandler.isManual loc = true /\
       LocationHandler.currentLocation st' = Some loc /\
       LocationHandler.listeners st' = LocationHandler.listeners st /\
       LocationHandler.notified st'
       = (LocationHandler.notified st
          ++ List.map (fun callback => (callback, Some loc))
                      (LocationHandler.listeners st))%list).
Proof. exact setManualLocation_cases. Qed.

Lemma setManualLocation_guard_witness :
  (LocationHandler.setManualLocation (Fin 0) PInf (Fin 200)
     (LocationHandler.mkState None (1%nat :: 2%nat :: nil) nil)
   = inl "Latitude must be between -90 and 90 degrees"%string) /\
  (LocationHandler.setManualLocation (Fin 0) NaN (Fin 200)
     (LocationHandler.mkState None (1%nat :: 2%nat :: nil) nil)
   = inl "Longitude must be between -180 and 180 degrees"%string) /\
  (exists (loc : LocationHandler.Location) (st' : LocationHandler.state),
     LocationHandler.setManualLocation (Fin 0) NaN (Fin 55.3)
       (LocationHandler.mkState None (1%nat :: 2%nat :: nil) nil)
     = inr (loc, st') /\
     LocationHandler.lat loc = NaN /\ LocationHandler.lon loc = Fin 55.3 /\
     LocationHandler.isManual loc = true /\
     LocationHandler.currentLocation st' = Some loc /\
     LocationHandler.listeners st' = (1%nat :: 2%nat :: nil) /\
     LocationHandler.notified st'
     = (nil ++ List.map (fun callback => (callback, Some loc))
                        (1%nat :: 2%nat :: nil))%list).
Proof.
  split; [|split].
  - apply (setManualLocation_guard (Fin 0) PInf (Fin 200)); simpl; tauto.
  - apply (setManualLocation_guard (Fin 0) NaN (Fin 200)); simpl; [trivial | lra].
  - apply (setManualLocation_guard (Fin 0) NaN (Fin 55.3)); simpl; [trivial | lra].
Defined.




(** ** [SatFinderApp.toggleFavorite] *)

Lemma existsb_eqb_In name favorites :
  List.existsb (String.eqb name) favorites = true <-> List.In name favorites.
Proof.
  rewrite List.existsb_exists; split.
  - intros (x & Hx & He); apply String.eqb_eq in He; subst; assumption.
  - intros H; exists name; split; [assumption | apply String.eqb_refl].
Qed.

Lemma remove_first_In name other favorites :
  other <> name ->
  (List.In other (SatFinderApp.remove_first name favorites)
   <-> List.In other favorites).
Proof.
  intros Hne; induction favorites as [|f rest IH]; simpl; [tauto|].
  destruct (String.eqb f name) eqn:E.
  - apply String.eqb_eq in E; subst f; split; [auto | intros [H|H]; congruence].
  - simpl; rewrite IH; tauto.
Qed.

Lemma remove_first_subset name x favorites :
  List.In x (SatFinderApp.remove_first name favorites) -> List.In x favorites.
Proof.
  induction favorites as [|f rest IH]; simpl; [tauto|].
  destruct (String.eqb f name); simpl; intuition.
Qed.

Lemma remove_first_NoDup name favorites :
  List.NoDup favorites ->
  List.NoDup (SatFinderApp.remove_first name favorites) /\
  ~ List.In name (SatFinderApp.remove_first name favorites).
Proof.
  induction 1 as [|f rest Hnin Hnd IH]; simpl.
  - split; [constructor | tauto].
  - destruct (String.eqb f name) eqn:E.
    + apply String.eqb_eq in E; subst f; split; assumption.
    + apply String.eqb_neq in E; destruct IH as [IH1 IH2]; split.
      * constructor; [|assumption].
        intros H; apply Hnin; eapply remove_first_subset; eassumption.
      * simpl; intros [H|H]; [congruence | contradiction].
Qed.

(** X15: on a list of favourites without duplicates [toggleFavorite] flips
    the membership of the given name, leaves every other name as it was, and
    keeps the list free of duplicates. *)
Theorem toggleFavorite_flips :
  forall (name : string) (favorites : list string),
    List.NoDup favorites ->
    List.NoDup (SatFinderApp.toggleFavorite name favorites) /\
    (List.In name (SatFinderApp.toggleFavorite name favorites)
     <-> ~ List.In name favorites) /\
    (forall other : string,
       other <> name ->
       (List.In other (SatFinderApp.toggleFavorite name favorites)
        <-> List.In other favorites)).
Proof.
  intros name favorites Hnd; unfold SatFinderApp.toggleFavorite.
  destruct (List.existsb (String.eqb name) favorites) eqn:E.
  - apply existsb_eqb_In in E.
    destruct (remove_first_NoDup name favorites Hnd) as [H1 H2].
    split; [assumption|]; split; [tauto|].
    intros other Hne; apply remove_first_In; assumption.
  - assert (Hnin : ~ List.In name favorites).
    { intros H; apply existsb_eqb_In in H; congruence. }
    split; [|split].
    + apply List.NoDup_app; [assumption | repeat constructor; simpl; tauto |].
      intros x Hx [<-|[]]; contradiction.
    + rewrite List.in_app_iff; simpl; tauto.
    + intros other Hne; rewrite List.in_app_iff; simpl.
      split; [intros [H|[H|[]]]; [assumption | congruence] | auto].
Qed.

Lemma toggleFavorite_flips_witness :
  List.NoDup (SatFinderApp.toggleFavorite "Hotbird 13E"
                ("Astra 19.2E" :: "Hotbird 13E" :: nil)%string) /\
  (List.In "Hotbird 13E"%string
     (SatFinderApp.toggleFavorite "Hotbird 13E"
        ("Astra 19.2E" :: "Hotbird 13E" :: nil)%string)
   <-> ~ List.In "Hotbird 13E"%string
         ("Astra 19.2E" :: "Hotbird 13E" :: nil)%string) /\
  (forall other : string,
     other <> "Hotbird 13E"%string ->
     (List.In other
        (SatFinderApp.toggleFavorite "Hotbird 13E"
           ("Astra 19.2E" :: "Hotbird 13E" :: nil)%string)
      <-> List.In other ("Astra 19.2E" :: "Hotbird 13E" :: nil)%string)).
Proof.
  apply (toggleFavorite_flips "Hotbird 13E"
           ("Astra 19.2E" :: "Hotbird 13E" :: nil)%string).
  repeat constructor; simpl; intuition discriminate.
Defined.

(** ** [SoundHandler.setVolume] *)

Lemma setVolume_value v st :
  SoundHandler.volume (SoundHandler.setVolume v st)
  = match v with
    | Fin x => Fin (Rmax 0 (Rmin 1 x))
    | PInf => Fin 1
    | NInf => Fin 0
    | NaN => NaN
    end.
Proof.
  destruct v as [x| | |]; simpl; try reflexivity.
  - unfold R_ltb, Rmin, Rmax.
    destruct (Rlt_dec 1 x), (Rle_dec 1 x); try lra; simpl; unfold R_ltb;
      repeat match goal with
             | |- context [Rlt_dec ?a ?b] => destruct (Rlt_dec a b)
             | |- context [Rle_dec ?a ?b] => destruct (Rle_dec a b)
             end; f_equal; lra.
  - unfold R_ltb; destruct (Rlt_dec 0 1); [reflexivity | lra].
Qed.

Lemma step_volume st c :
  (forall v, c <> SoundHandler.CallSetVolume v) ->
  SoundHandler.volume (SoundHandler.step st c) = SoundHandler.volume st.
Proof.
  intros Hc; destruct c as [d| | | | |v]; simpl.
  - unfold SoundHandler.updateAlignment.
    destruct (SoundHandler.isEnabled st); simpl; [|reflexivity].
    unfold SoundHandler.stopBeeping; simpl.
    repeat match goal with
           | |- context [if ?b then _ else _] => destruct b
           end;
      destruct (SoundHandler.beepInterval st); reflexivity.
  - unfold SoundHandler.stopBeeping.
    destruct (SoundHandler.beepInterval st); reflexivity.
  - reflexivity.
  - unfold SoundHandler.disable, SoundHandler.stopBeeping; simpl.
    destruct (SoundHandler.beepInterval st); reflexivity.
  - unfold SoundHandler.toggle, SoundHandler.disable, SoundHandler.stopBeeping.
    destruct (SoundHandler.isEnabled st); simpl; [|reflexivity].
    destruct (SoundHandler.beepInterval st); reflexivity.
  - exfalso; apply (Hc v); reflexivity.
Qed.

Lemma run_snoc calls c st :
  SoundHandler.run (calls ++ c :: nil) st
  = SoundHandler.step (SoundHandler.run calls st) c.
Proof. unfold SoundHandler.run; rewrite List.fold_left_app; reflexivity. Qed.

(** X16: whatever is called on the sound handler, its volume is a number in
    [[0, 1]] or [NaN], and it is [NaN] only after a call [setVolume (NaN)];
    [setVolume] keeps a value of [[0, 1]] as it is and moves every other
    number to the nearer end of the interval. *)
Theorem volume_clamped :
  forall calls : list SoundHandler.call,
    unit_or_NaN (SoundHandler.volume (SoundHandler.run calls SoundHandler.initial)) /\
    (SoundHandler.volume (SoundHandler.run calls SoundHandler.initial) = NaN ->
     List.In (SoundHandler.CallSetVolume NaN) calls) /\
    (forall (x : R) (st : SoundHandler.state),
       SoundHandler.volume (SoundHandler.setVolume (Fin x) st)
       = Fin (if Rlt_dec x 0 then 0 else if Rlt_dec 1 x then 1 else x)).
Proof.
  intros calls; split; [|split].
  - induction calls as [|c calls IH] using List.rev_ind.
    + simpl; lra.
    + rewrite run_snoc.
      destruct c as [d| | | | |v];
        try (rewrite step_volume by discriminate; exact IH).
      simpl SoundHandler.step; rewrite setVolume_value.
      destruct v as [x| | |]; simpl; [ | lra | lra | trivial ].
      unfold Rmax, Rmin; destruct (Rle_dec 1 x);
        match goal with |- context [Rle_dec ?a ?b] => destruct (Rle_dec a b) end; lra.
  - induction calls as [|c calls IH] using List.rev_ind.
    + simpl; discriminate.
    + rewrite run_snoc, List.in_app_iff.
      destruct c as [d| | | | |v];
        try (rewrite step_volume by discriminate; intros H; left; exact (IH H)).
      simpl SoundHandler.step; rewrite setVolume_value.
      destruct v; try discriminate.
      intros _; right; left; reflexivity.
  - intros x st; rewrite setVolume_value; f_equal.
    unfold Rmax, Rmin; destruct (Rlt_dec x 0), (Rlt_dec 1 x), (Rle_dec 1 x);
      match goal with |- context [Rle_dec ?a ?b] => destruct (Rle_dec a b) end; lra.
Qed.

Lemma volume_clamped_witness :
  List.In (SoundHandler.CallSetVolume NaN)
    (SoundHandler.CallEnable :: SoundHandler.CallSetVolume NaN :: nil).
Proof.
  apply (proj1 (proj2 (volume_clamped
           (SoundHandler.CallEnable :: SoundHandler.CallSetVolume NaN :: nil)))).
  reflexivity.
Defined.

(** ** [CompassHandler.updateAlignmentStatus] *)

Lemma rem360_nonneg x :
  0 <= x -> (Fin x mod Fin 360)%js = Fin (wrap360 x).
Proof.
  intros H; unfold rem, wrap360.
  destruct (Req_dec_T 360 0); [lra|].
  unfold Ztrunc; destruct (Rlt_dec (x / 360) 0); [lra | reflexivity].
Qed.





(** ** [CompassHandler.getCardinalDirection] *)









(** ** [CompassHandler]: the smoothed heading *)


Lemma push_history_last history size h :
  (1 <= size)%nat ->
  exists front, CompassHandler.push_history history size h = (front ++ h :: nil)%list.
Proof.
  intros Hs; unfold CompassHandler.push_history.
  destruct (Nat.ltb_spec size (List.length (history ++ h :: nil))) as [Hlt|Hge].
  - rewrite List.length_app in Hlt; simpl in Hlt.
    destruct history as [|a rest]; simpl in *; [lia|].
    exists rest; reflexivity.
  - exists history; reflexivity.
Qed.






Lemma signed_PI_not_finite inf :
  inf = PInf \/ inf = NInf ->
  (signed PI inf / Fin 180)%js = PInf \/ (signed PI inf / Fin 180)%js = NInf.
Proof.
  pose proof PI_RGT_0 as Hpi.
  intros [-> | ->]; unfold signed; destruct (Rlt_dec 0 PI); try lra; simpl;
    destruct (Rlt_dec 180 0); try lra; auto.
Qed.


Lemma cos_term_NaN v :
  ~ is_finite v -> Math_cos (v * Math_PI / Fin 180) = NaN.
Proof.
  destruct v as [x| | |]; simpl is_finite; [tauto | | |]; intros _.
  - destruct (signed_PI_not_finite PInf) as [H|H]; [auto | |];
      unfold Math_PI; simpl mul; rewrite H; reflexivity.
  - destruct (signed_PI_not_finite NInf) as [H|H]; [auto | |];
      unfold Math_PI; simpl mul; rewrite H; reflexivity.
  - reflexivity.
Qed.




















(** ** [CompassHandler.handleOrientation] *)








(** ** [ARHandler]: the marker of the satellite *)

Lemma or_zero_alpha event a :
  ev_alpha event = None /\ a = 0 \/
  ev_alpha event = Some NaN /\ a = 0 \/
  ev_alpha event = Some (Fin a) ->
  ARHandler.alpha (ARHandler.handleOrientation event) = Fin a.
Proof.
  intros [[H ->]|[[H ->]|H]]; unfold ARHandler.handleOrientation; simpl;
    rewrite H; reflexivity.
Qed.

Lemma marker_x w r :
  (Fin w / Fin 2 + (Fin r / (Fin 60 / Fin 2)) * (Fin w / Fin 2))%js
  = Fin (w / 2 + r / 30 * (w / 2)).
Proof.
  rewrite (div_Fin 60 2) by lra.
  replace (60 / 2) with 30 by lra.
  rewrite !div_Fin by lra; reflexivity.
Qed.

Lemma marker_x_inside w r :
  0 <= w -> Rabs r <= 30 -> 0 <= w / 2 + r / 30 * (w / 2) <= w.
Proof.
  intros Hw Hr.
  assert (Hr' : -30 <= r <= 30).
  { unfold Rabs in Hr; destruct (Rcase_abs r); lra. }
  split; nra.
Qed.

(** X22: with a location of valid latitude, a device angle [alpha] in
    [[0, 360]] (or missing, which counts as 0) and a canvas of width
    [w >= 0], [drawSatelliteMarker] finishes once its loops may run twice.
    It draws nothing for a satellite that is not visible; whenever it draws,
    the satellite is visible and the marker's centre lies within the width of
    the canvas; and it draws at the middle of the width when the heading
    [360 - alpha] equals the azimuth of a visible satellite. *)
Theorem drawSatelliteMarker_inside_canvas :
  forall (fuel : nat) (sat : ARHandler.Satellite)
         (loc : LocationHandler.Location) (event : OrientationEvent)
         (height : number) (lat lon s a w : R),
    LocationHandler.lat loc = Fin lat -> LocationHandler.lon loc = Fin lon ->
    ARHandler.position sat = Fin s ->
    -90 <= lat <= 90 ->
    (ev_alpha event = None /\ a = 0 \/
     ev_alpha event = Some NaN /\ a = 0 \/
     ev_alpha event = Some (Fin a)) ->
    0 <= a <= 360 -> 0 <= w -> (2 <= fuel)%nat ->
    exists (calc : PointingSolution) (result : option (number * number)),
      calculateAll fuel (Fin lat) (Fin lon) (Fin s) = Some calc /\
      ARHandler.drawSatelliteMarker fuel (Some sat) (Some loc)
        (ARHandler.handleOrientation event) (Fin w) height = Some result /\
      (isVisible calc = false -> result = None) /\
      (forall x y : number,
         result = Some (x, y) ->
         isVisible calc = true /\ exists xr : R, x = Fin xr /\ 0 <= xr <= w) /\
      (isVisible calc = true -> azimuth calc = Fin (360 - a) ->
       exists y : number, result = Some (Fin (w / 2), y)).
Proof.
  intros fuel sat loc event height lat lon s a w Hlat Hlon Hs Hrlat Hev Ha Hw Hfuel.
  destruct (calculateAll_valid fuel lat lon s Hrlat)
    as (az & e & _ & Haz & _ & _ & Hall).
  destruct (round_between az 90 270 Haz) as (az' & Haz' & Hraz).
  pose proof (wrap360_range (360 - a)) as Hhd.
  destruct (wrap_diff_spec (az' - wrap360 (360 - a)) fuel) as (r & k & Hwd & Hr & Hrange).
  { pose proof (small_diff_fuel (az' - wrap360 (360 - a)) ltac:(lra)); lia. }
  assert (Hdraw : exists y,
            ARHandler.drawSatelliteMarker fuel (Some sat) (Some loc)
              (ARHandler.handleOrientation event) (Fin w) height
            = Some (if R_ltb 0 e
                    then if R_ltb 30 (Rabs r) then None
                         else Some (Fin (w / 2 + r / 30 * (w / 2)), y)
                    else None)).
  { unfold ARHandler.drawSatelliteMarker.
    rewrite Hlat, Hlon, Hs, Hall; cbn [isVisible azimuth elevation].
    rewrite (or_zero_alpha event a Hev), Haz'.
    destruct (R_ltb 0 e); cbn [negb]; [|exists NaN; reflexivity].
    rewrite sub_Fin, rem360_nonneg by lra.
    rewrite sub_Fin, Hwd.
    assert (H30 : (Math_abs (Fin r) >? Fin 60 / Fin 2)%js = R_ltb 30 (Rabs r)).
    { rewrite (div_Fin 60 2) by lra.
      replace (60 / 2) with 30 by lra; reflexivity. }
    rewrite H30, marker_x.
    destruct (R_ltb 30 (Rabs r)); [exists NaN; reflexivity|].
    eexists; reflexivity. }
  destruct Hdraw as (y & Hdraw).
  eexists; eexists; split; [exact Hall|]; split; [exact Hdraw|].
  cbn [isVisible azimuth].
  assert (Hmid : Fin az' = Fin (360 - a) -> r = 0).
  { intros Heq; injection Heq as Heq.
    assert (Hwrap : wrap360 (360 - a) = 360 - a) by (apply wrap360_id; lra).
    rewrite Heq, Hwrap in Hr.
    assert (Hk : k = 0%Z).
    { assert (-1 < k)%Z by (apply lt_IZR; lra).
      assert (k < 1)%Z by (apply lt_IZR; lra).
      lia. }
    subst k; lra. }
  rewrite Haz'.
  destruct (R_ltb 0 e) eqn:Evis.
  - split; [discriminate|].
    unfold R_ltb; destruct (Rlt_dec 30 (Rabs r)) as [Hfar|Hnear]; split.
    + intros x0 y0 H; discriminate.
    + intros _ Heq; rewrite (Hmid Heq), Rabs_R0 in Hfar; lra.
    + intros x0 y0 H; injection H as <- <-.
      split; [reflexivity|].
      eexists; split; [reflexivity|].
      apply marker_x_inside; [assumption | lra].
    + intros _ Heq; exists y; rewrite (Hmid Heq).
      replace (w / 2 + 0 / 30 * (w / 2)) with (w / 2) by lra; reflexivity.
  - split; [reflexivity|]; split; [|discriminate].
    intros x0 y0 H; discriminate.
Qed.

Lemma drawSatelliteMarker_inside_canvas_witness :
  exists (calc : PointingSolution) (result : option (number * number)),
    calculateAll 2 (Fin 25.2) (Fin 55.3) (Fin 13) = Some calc /\
    ARHandler.drawSatelliteMarker 2
      (Some (ARHandler.mkSatellite "Hotbird 13E" (Fin 13)))
      (Some (LocationHandler.mkLocation (Fin 25.2) (Fin 55.3) (Fin 0) None (Fin 0) true))
      (ARHandler.handleOrientation
         (mkOrientationEvent None (Some (Fin 244.9)) (Some (Fin 90)) None))
      (Fin 640) (Fin 480) = Some result /\
    (isVisible calc = false -> result = None) /\
    (forall x y : number,
       result = Some (x, y) ->
       isVisible calc = true /\ exists xr : R, x = Fin xr /\ 0 <= xr <= 640) /\
    (isVisible calc = true -> azimuth calc = Fin (360 - 244.9) ->
     exists y : number, result = Some (Fin (640 / 2), y)).
Proof.
  apply (drawSatelliteMarker_inside_canvas 2
           (ARHandler.mkSatellite "Hotbird 13E" (Fin 13))
           (LocationHandler.mkLocation (Fin 25.2) (Fin 55.3) (Fin 0) None (Fin 0) true)
           (mkOrientationEvent None (Some (Fin 244.9)) (Some (Fin 90)) None)
           (Fin 480) 25.2 55.3 13 244.9 640);
    try reflexivity; try lra; try lia.
  right; right; reflexivity.
Defined.

(** ** [LocationHandler.calculateDistance]: the haversine formula *)









(** ** [LocationHandler]: the listeners *)




